(** * Bilateral blur (kornia/filters/bilateral.py): a shallow embedding

    The development follows the Python source line by line.

    - Scalars are IEEE 754 binary64 values, specified by the Standard
      Library's [SpecFloat] (round to nearest even, signed zeros, infinities
      and NaN).  A Python [float] has the same format, so a Python scalar
      enters tensor arithmetic unchanged.
    - A tensor is a shape together with its elements in row-major order.
    - A call runs in a small monad that records, in order, the tensor
      operations that were carried out, and stops at the first exception.
    - A tensor has dtype float64 and lives on the CPU.
    - The exponential (libm), the order in which torch's [sum] adds up the
      entries of a slice, and the spatial Gaussian kernel builder
      (kornia.filters.gaussian, outside these sources) are parameters of the
      pipeline. *)

From Stdlib Require Import String ZArith Bool Lia Arith List Permutation.
From Stdlib Require Import Floats.SpecFloat.
Import ListNotations.

Set Implicit Arguments.

(* ================================================================== *)
(** ** Scalars: IEEE 754 binary64 *)

Module F64.

Definition prec : Z := 53.
Definition emax : Z := 1024.

Definition float : Type := spec_float.

Definition add : float -> float -> float := SFadd prec emax.
Definition sub : float -> float -> float := SFsub prec emax.
Definition mul : float -> float -> float := SFmul prec emax.
Definition div : float -> float -> float := SFdiv prec emax.
Definition abs : float -> float := SFabs.
Definition opp : float -> float := SFopp.
Definition square (x : float) : float := mul x x.

Definition zero : float := S754_zero false.
Definition nan : float := S754_nan.
Definition of_Z (z : Z) : float := binary_normalize prec emax z 0 false.
Definition one : float := Eval vm_compute in of_Z 1.
(** The literal [-0.5]. *)
Definition neg_half : float := Eval vm_compute in div (of_Z (-1)) (of_Z 2).

Definition is_finite (x : float) : bool :=
  match x with
  | S754_zero _ | S754_finite _ _ _ => true
  | S754_infinity _ | S754_nan => false
  end.

Definition is_zero (x : float) : bool :=
  match x with S754_zero _ => true | _ => false end.

Definition is_nan (x : float) : bool :=
  match x with S754_nan => true | _ => false end.

Definition is_inf (x : float) : bool :=
  match x with S754_infinity _ => true | _ => false end.

(** Sequential accumulation from [+0], in index order: one of the orders
    in which a list can be added up. *)
Definition sum_list (l : list float) : float := fold_left add l zero.

End F64.

Definition float : Type := F64.float.

(* ================================================================== *)
(** ** Tensors *)

Record Tensor : Type := mkTensor { shape : list nat; data : list float }.

Definition numel (sh : list nat) : nat := fold_right Nat.mul 1 sh.

(** Row-major offset of a multi-index. *)
Fixpoint ravel (sh idx : list nat) : nat :=
  match sh, idx with
  | _ :: sh', i :: idx' => i * numel sh' + ravel sh' idx'
  | _, _ => 0
  end.

Fixpoint in_range (sh idx : list nat) : Prop :=
  match sh, idx with
  | [], [] => True
  | n :: sh', i :: idx' => i < n /\ in_range sh' idx'
  | _, _ => False
  end.

(** All multi-indices of a shape, in row-major order. *)
Fixpoint indices (sh : list nat) : list (list nat) :=
  match sh with
  | [] => [[]]
  | n :: sh' => concat (map (fun i => map (cons i) (indices sh')) (seq 0 n))
  end.

Definition get (t : Tensor) (idx : list nat) : float :=
  nth (ravel (shape t) idx) (data t) F64.nan.

Definition tabulate (sh : list nat) (f : list nat -> float) : Tensor :=
  mkTensor sh (map f (indices sh)).

Definition map_tensor (f : float -> float) (t : Tensor) : Tensor :=
  mkTensor (shape t) (map f (data t)).

(** A tensor is well formed when it holds one element per index. *)
Definition wf (t : Tensor) : Prop := length (data t) = numel (shape t).

Definition wfb (t : Tensor) : bool := length (data t) =? numel (shape t).

(** List surgery on shapes and multi-indices. *)
Fixpoint set_nth {A : Type} (n : nat) (v : A) (l : list A) : list A :=
  match l, n with
  | [], _ => []
  | _ :: l', O => v :: l'
  | a :: l', S n' => a :: set_nth n' v l'
  end.

Fixpoint remove_nth {A : Type} (n : nat) (l : list A) : list A :=
  match l, n with
  | [], _ => []
  | _ :: l', O => l'
  | a :: l', S n' => a :: remove_nth n' l'
  end.

Fixpoint insert_nth {A : Type} (n : nat) (v : A) (l : list A) : list A :=
  match n, l with
  | O, _ => v :: l
  | S n', a :: l' => a :: insert_nth n' v l'
  | S _, [] => [v]
  end.

(** Python's negative dimension numbers: [-1] is the last dimension. *)
Definition norm_dim (rank : nat) (d : Z) : option nat :=
  let d' := if (d <? 0)%Z then (d + Z.of_nat rank)%Z else d in
  if ((0 <=? d') && (d' <? Z.of_nat rank))%Z then Some (Z.to_nat d') else None.

(* ================================================================== *)
(** ** Sums

    [Tensor.sum] adds up the entries of every slice along the summed
    dimension.  In which order it adds them is not written in bilateral.py:
    torch's kernels keep several partial sums and lay them out according to
    the shape of the tensor and the vector width of the machine.  A
    [Reduction] stands for that choice: [fsum sh d l] is the sum torch forms
    of the slice [l] when dimension [d] of a tensor of shape [sh] is
    summed. *)

Definition Reduction : Type := list nat -> nat -> list float -> float.

(** An order of additions: the entries of the slice, by position, and
    partial sums that start from [+0], joined by additions. *)
Inductive SumTree : Type :=
| Term (i : nat)
| Empty
| Plus (l r : SumTree).

Fixpoint sum_tree (t : SumTree) (l : list float) : float :=
  match t with
  | Term i => nth i l F64.zero
  | Empty => F64.zero
  | Plus a b => F64.add (sum_tree a l) (sum_tree b l)
  end.

Fixpoint terms (t : SumTree) : list nat :=
  match t with
  | Term i => [i]
  | Empty => []
  | Plus a b => terms a ++ terms b
  end.

(** [trees sh d n] adds up [n] entries: each of them exactly once. *)
Definition complete (trees : list nat -> nat -> nat -> SumTree) : Prop :=
  forall sh d n, Permutation (terms (trees sh d n)) (seq 0 n).

(** The reduction that follows the given orders of additions. *)
Definition sum_by (trees : list nat -> nat -> nat -> SumTree) : Reduction :=
  fun sh d l => sum_tree (trees sh d (length l)) l.

(** What adding up a list gives whatever the order: a NaN entry gives NaN,
    zeros give a zero, entries [+0] give [+0], and one entry that is not a
    zero, among zeros, gives that entry. *)
Record summation (f : list float -> float) : Prop := {
  sum_of_nan : forall l, In F64.nan l -> f l = F64.nan;
  sum_of_zeros :
    forall l, (forall x, In x l -> F64.is_zero x = true) ->
      F64.is_zero (f l) = true;
  sum_of_pos_zeros :
    forall l, (forall x, In x l -> x = F64.zero) -> f l = F64.zero;
  sum_among_zeros :
    forall l i, F64.is_zero (nth i l F64.zero) = false ->
      (forall j, j <> i -> F64.is_zero (nth j l F64.zero) = true) ->
      f l = nth i l F64.zero
}.

Definition sums (fsum : Reduction) : Prop :=
  forall sh d, summation (fsum sh d).

(** Index order, whatever the shape. *)
Definition sum_in_order : Reduction := fun _ _ l => F64.sum_list l.

(** The entries [ids] added, one after the other, to a partial sum. *)
Definition chain (start : SumTree) (ids : list nat) : SumTree :=
  fold_left (fun t i => Plus t (Term i)) ids start.

Definition in_order (sh : list nat) (d n : nat) : SumTree :=
  chain Empty (seq 0 n).

(** A vectorised order with four lanes.  Lane [j] holds the partial sum of
    the entries [j], [j + 4], [j + 8], ... of the [q] full vectors; the
    entries left over are added up first, and the four lanes are added to
    that sum.  It is used for a dimension that is contiguous in memory,
    which is one whose later dimensions all have size one; other dimensions
    are added in index order. *)

Definition lane (q j : nat) : SumTree :=
  chain Empty (map (fun r => 4 * r + j) (seq 0 q)).

Definition lanes_tree (n : nat) : SumTree :=
  let q := n / 4 in
  Plus (Plus (Plus (Plus (chain Empty (seq (4 * q) (n mod 4))) (lane q 0))
                (lane q 1)) (lane q 2)) (lane q 3).

Definition contiguous (sh : list nat) (d : nat) : bool :=
  forallb (Nat.eqb 1) (skipn (S d) sh).

Definition lanes_or_order (sh : list nat) (d n : nat) : SumTree :=
  if contiguous sh d then lanes_tree n else in_order sh d n.

Definition sum_in_lanes : Reduction := sum_by lanes_or_order.

(* ================================================================== *)
(** ** Exceptions and the trace of tensor operations *)

Inductive Exn : Type :=
| TypeError            (* KORNIA_CHECK_SHAPE *)
| KernelSizeError      (* the kernel size check *)
| ValueError           (* bilateral.py, line 69 *)
| RuntimeError         (* torch: sizes that do not fit *)
| IndexError           (* torch: dimension out of range *)
| NotImplementedError  (* torch pad: unknown mode *)
| ZeroDivisionError    (* Python float division *)
| OverflowError.       (* Python float power *)

(** The spec's ValidationError: what the argument checks raise. *)
Definition is_validation_error (e : Exn) : bool :=
  match e with
  | TypeError | KernelSizeError | ValueError => true
  | _ => false
  end.

(** One entry per tensor operation that was carried out. *)
Inductive Op : Type :=
| OpTo | OpView | OpPad | OpUnfold | OpFlatten | OpUnsqueeze
| OpSub | OpAbs | OpSquare | OpSum | OpPow | OpReciprocal | OpDiv | OpMul
| OpExp | OpGaussianKernel.

Inductive result (A : Type) : Type :=
| Ok (a : A)
| Raise (e : Exn).

Arguments Ok {A} a.
Arguments Raise {A} e.

Definition M (A : Type) : Type := (list Op * result A)%type.

Definition ret {A : Type} (a : A) : M A := ([], Ok a).
Definition raise {A : Type} (e : Exn) : M A := ([], Raise e).
Definition did {A : Type} (op : Op) (a : A) : M A := ([op], Ok a).
Definition lift {A : Type} (r : result A) : M A := ([], r).

Definition bind {A B : Type} (m : M A) (f : A -> M B) : M B :=
  match m with
  | (tr, Ok a) => let (tr', r) := f a in (tr ++ tr', r)
  | (tr, Raise e) => (tr, Raise e)
  end.

Notation "x <- m ;; k" := (bind m (fun x => k))
  (at level 61, m at next level, right associativity).
Notation "' p <- m ;; k" := (bind m (fun x => let p := x in k))
  (at level 61, p pattern, m at next level, right associativity).

Definition trace {A : Type} (m : M A) : list Op := fst m.
Definition outcome {A : Type} (m : M A) : result A := snd m.

(* ================================================================== *)
(** ** Python scalars *)

(** [x ** 2] on a Python float: the correctly rounded square, and
    OverflowError when a finite operand gives an infinite result. *)
Definition py_pow2 (x : float) : result float :=
  let r := F64.mul x x in
  if F64.is_finite x && F64.is_inf r then Raise OverflowError else Ok r.

(** [a / b] on Python floats: ZeroDivisionError when [b] is [0.0] or
    [-0.0]. *)
Definition py_truediv (a b : float) : result float :=
  if F64.is_zero b then Raise ZeroDivisionError else Ok (F64.div a b).

(* ================================================================== *)
(** ** torch operations *)

Inductive PadMode : Type := Constant | Reflect | Replicate | Circular.

Definition parse_mode (s : string) : option PadMode :=
  if (s =? "constant")%string then Some Constant
  else if (s =? "reflect")%string then Some Reflect
  else if (s =? "replicate")%string then Some Replicate
  else if (s =? "circular")%string then Some Circular
  else None.

(** Where position [i] of an axis of length [n], padded by [p] in front,
    reads from; [None] is the fill value [0] of mode constant. *)
Definition pad_source (m : PadMode) (n p i : nat) : option nat :=
  match m with
  | Constant => if (p <=? i) && (i <? p + n) then Some (i - p) else None
  | Reflect =>
      Some (if i <? p then p - i
            else if i <? p + n then i - p
            else 2 * (n - 1) - (i - p))
  | Replicate => Some (if i <? p then 0 else Nat.min (i - p) (n - 1))
  | Circular => Some ((i + (n - p)) mod n)
  end.

(** The sizes torch accepts for a 4-D input. *)
Definition pad_allowed (m : PadMode) (C H W pl pr pt pb : nat) : bool :=
  match m with
  | Constant => true
  | Reflect =>
      (0 <? C) && (pl <? W) && (pr <? W) && (pt <? H) && (pb <? H)
  | Replicate => (0 <? C) && (0 <? H) && (0 <? W)
  | Circular => (pl <=? W) && (pr <=? W) && (pt <=? H) && (pb <=? H)
  end.

Definition padded_value (m : PadMode) (x : Tensor) (H W pl pt : nat)
  (idx : list nat) : float :=
  match idx with
  | [b; c; h; w] =>
      match pad_source m H pt h, pad_source m W pl w with
      | Some h', Some w' => get x [b; c; h'; w']
      | _, _ => F64.zero
      end
  | _ => F64.nan
  end.

(** [pad(input, (left, right, top, bottom), mode)] on a 4-D tensor. *)
Definition pad (x : Tensor) (p : nat * nat * nat * nat) (mode : string)
  : M Tensor :=
  let '(pl, pr, pt, pb) := p in
  match parse_mode mode, shape x with
  | None, _ => raise NotImplementedError
  | Some m, [B; C; H; W] =>
      if pad_allowed m C H W pl pr pt pb then
        did OpPad (tabulate [B; C; pt + H + pb; pl + W + pr]
                     (padded_value m x H W pl pt))
      else raise RuntimeError
  | Some _, _ => raise NotImplementedError
  end.

(** [x.unfold(dim, size, step)]: all windows of [size] along [dim], laid
    out in a new last dimension. *)
Definition unfold (x : Tensor) (dim : Z) (size step : nat) : M Tensor :=
  match norm_dim (length (shape x)) dim with
  | None => raise IndexError
  | Some d =>
      let n := nth d (shape x) 0 in
      if (size <=? n) && (0 <? step) then
        did OpUnfold
          (tabulate (set_nth d ((n - size) / step + 1) (shape x) ++ [size])
             (fun idx =>
                get x (set_nth d (nth d idx 0 * step + last idx 0)
                         (removelast idx))))
      else raise RuntimeError
  end.

(** [x.flatten(start_dim)]: the dimensions from [start_dim] on become
    one; the elements keep their row-major order. *)
Definition flatten (x : Tensor) (start_dim : Z) : M Tensor :=
  match norm_dim (length (shape x)) start_dim with
  | None => raise IndexError
  | Some d =>
      did OpFlatten
        (mkTensor (firstn d (shape x) ++ [numel (skipn d (shape x))])
           (data x))
  end.

(** [x.unsqueeze(dim)]: a new dimension of size one. *)
Definition unsqueeze (x : Tensor) (dim : Z) : M Tensor :=
  match norm_dim (S (length (shape x))) dim with
  | None => raise IndexError
  | Some d => did OpUnsqueeze (mkTensor (insert_nth d 1 (shape x)) (data x))
  end.

(** The shape a [view] asks for, with at most one [-1] to infer. *)
Definition infer_shape (n : nat) (target : list Z) : option (list nat) :=
  if existsb (fun z => (z <? -1)%Z) target then None
  else
    let known :=
      numel (map Z.to_nat (filter (fun z => negb (z =? -1)%Z) target)) in
    match length (filter (fun z => (z =? -1)%Z) target) with
    | 0 => if known =? n then Some (map Z.to_nat target) else None
    | 1 =>
        if (0 <? known) && (n mod known =? 0) then
          Some (map (fun z => if (z =? -1)%Z then n / known else Z.to_nat z)
                  target)
        else None
    | _ => None
    end.

Definition view (x : Tensor) (target : list Z) : M Tensor :=
  match infer_shape (numel (shape x)) target with
  | Some sh => did OpView (mkTensor sh (data x))
  | None => raise RuntimeError
  end.

(** [x.to(device=..., dtype=...)]: every tensor here is binary64. *)
Definition to (x : Tensor) : M Tensor := did OpTo x.

(** Broadcasting: the shorter shape is extended by leading ones; then, in
    each dimension, the sizes must agree or one of them be [1]. *)
Definition lpad (n : nat) (sh : list nat) : list nat :=
  repeat 1 (n - length sh) ++ sh.

Fixpoint broadcast_same (s1 s2 : list nat) : option (list nat) :=
  match s1, s2 with
  | [], [] => Some []
  | a :: s1', b :: s2' =>
      if (a =? b) || (b =? 1) then option_map (cons a) (broadcast_same s1' s2')
      else if a =? 1 then option_map (cons b) (broadcast_same s1' s2')
      else None
  | _, _ => None
  end.

Definition broadcast_shapes (s1 s2 : list nat) : option (list nat) :=
  let n := Nat.max (length s1) (length s2) in
  broadcast_same (lpad n s1) (lpad n s2).

(** A dimension of size one is read at position 0 whatever the index. *)
Definition bmask (n i : nat) : nat := if n =? 1 then 0 else i.

Fixpoint bmask_all (sh idx : list nat) : list nat :=
  match sh, idx with
  | n :: sh', i :: idx' => bmask n i :: bmask_all sh' idx'
  | _, _ => []
  end.

(** The index an operand of shape [sh] is read at, for the result index
    [idx]. *)
Definition bidx (sh idx : list nat) : list nat :=
  bmask_all sh (skipn (length idx - length sh) idx).

Definition broadcast_op (op : Op) (f : float -> float -> float)
  (a b : Tensor) : M Tensor :=
  match broadcast_shapes (shape a) (shape b) with
  | Some sh =>
      did op (tabulate sh (fun idx =>
                f (get a (bidx (shape a) idx)) (get b (bidx (shape b) idx))))
  | None => raise RuntimeError
  end.

Definition tsub : Tensor -> Tensor -> M Tensor := broadcast_op OpSub F64.sub.
Definition tmul : Tensor -> Tensor -> M Tensor := broadcast_op OpMul F64.mul.
Definition tdiv : Tensor -> Tensor -> M Tensor := broadcast_op OpDiv F64.div.

Definition tabs (x : Tensor) : M Tensor := did OpAbs (map_tensor F64.abs x).
Definition tsquare (x : Tensor) : M Tensor :=
  did OpSquare (map_tensor F64.square x).

(** [x.sum(dim, keepdim)]: every slice along [dim] is added up, in the
    order torch chooses for a tensor of this shape. *)
Definition tsum (fsum : Reduction) (x : Tensor) (dim : Z) (keepdim : bool)
  : M Tensor :=
  match norm_dim (length (shape x)) dim with
  | None => raise IndexError
  | Some d =>
      let n := nth d (shape x) 0 in
      did OpSum
        (tabulate
           (if keepdim then set_nth d 1 (shape x) else remove_nth d (shape x))
           (fun idx =>
              fsum (shape x) d
                (map (fun j =>
                        get x (if keepdim then set_nth d j idx
                               else insert_nth d j idx))
                   (seq 0 n))))
  end.

Definition treciprocal (x : Tensor) : M Tensor :=
  did OpReciprocal (map_tensor (F64.div F64.one) x).

(* ================================================================== *)
(** ** kornia helpers that bilateral.py imports *)

Inductive KernelSize : Type :=
| KsInt (k : Z)
| KsPair (k0 k1 : Z).

Inductive SigmaColor : Type :=
| SigmaFloat (x : float)
| SigmaTensor (t : Tensor).

Inductive SigmaSpace : Type :=
| SpacePair (s0 s1 : float)
| SpaceTensor (t : Tensor).

(** Modelled from the spec: KORNIA_CHECK_SHAPE (kornia.core.check) is not
    among the sources.  The spec requires an image whose rank is not 4 to be
    rejected with a validation error.  Both calls in bilateral.py hand the
    check one tensor and a list of dimension names, and nothing else: a name
    stands for a dimension of any size, and the tensor is accepted exactly
    when it has as many dimensions as there are names. *)
Definition KORNIA_CHECK_SHAPE (x : Tensor) (names : list string) : M unit :=
  if length (shape x) =? length names then ret tt else raise TypeError.

Definition kernel_component_ok (k : Z) : bool := (0 <? k)%Z && Z.odd k.

(** Modelled from the spec: _unpack_2d_ks (kornia.filters.kernels) is not
    among the sources.  A single integer denotes kx = ky; a pair is
    (kx, ky); a kernel size with an even or non-positive component raises a
    validation error. *)
Definition _unpack_2d_ks (kernel_size : KernelSize) : M (Z * Z) :=
  let '(kx, ky) :=
    match kernel_size with
    | KsInt k => (k, k)
    | KsPair k0 k1 => (k0, k1)
    end in
  if kernel_component_ok kx && kernel_component_ok ky then ret (kx, ky)
  else raise KernelSizeError.

(** Modelled from the spec: _compute_zero_padding (kornia.filters.median)
    is not among the sources.  pad_x = (kx - 1) / 2 and
    pad_y = (ky - 1) / 2. *)
Definition _compute_zero_padding (kernel_size : KernelSize) : Z * Z :=
  let '(kx, ky) :=
    match kernel_size with
    | KsInt k => (k, k)
    | KsPair k0 k1 => (k0, k1)
    end in
  (((kx - 1) / 2)%Z, ((ky - 1) / 2)%Z).

(* ================================================================== *)
(** ** bilateral_blur *)

Section Pipeline.

(** libm's exponential on binary64. *)
Variable fexp : float -> float.

(** The order in which torch's [sum] adds. *)
Variable fsum : Reduction.

(** get_gaussian_kernel2d (kornia.filters.gaussian), the spec's
    SpatialKernelBuilder. *)
Variable get_gaussian_kernel2d : KernelSize -> SigmaSpace -> result Tensor.

Definition texp (x : Tensor) : M Tensor := did OpExp (map_tensor fexp x).

(** Lines 53-55. *)
Definition prepare_sigma_color (sigma_color : SigmaColor) : M SigmaColor :=
  match sigma_color with
  | SigmaTensor t =>
      _ <- KORNIA_CHECK_SHAPE t ["B"%string] ;;
      t1 <- to t ;;
      t2 <- view t1 [-1; 1; 1; 1; 1]%Z ;;
      ret (SigmaTensor t2)
  | SigmaFloat x => ret (SigmaFloat x)
  end.

(** Lines 57-63: the windows [unfolded] and their differences to the
    centre pixel. *)
Definition windows (input : Tensor) (kernel_size : KernelSize)
  (border_type : string) : M (Z * Z * Tensor * Tensor) :=
  '(kx, ky) <- _unpack_2d_ks kernel_size ;;
  let '(pad_x, pad_y) := _compute_zero_padding kernel_size in
  padded <- pad input
              (Z.to_nat pad_x, Z.to_nat pad_x, Z.to_nat pad_y, Z.to_nat pad_y)
              border_type ;;
  u1 <- unfold padded 2 (Z.to_nat ky) 1 ;;
  u2 <- unfold u1 3 (Z.to_nat kx) 1 ;;
  unfolded <- flatten u2 (-2) ;;
  centre <- unsqueeze input (-1) ;;
  diff <- tsub unfolded centre ;;
  ret (kx, ky, unfolded, diff).

(** Lines 64-69. *)
Definition color_distance (color_distance_type : string) (diff : Tensor)
  : M Tensor :=
  if (color_distance_type =? "l1")%string then
    a <- tabs diff ;;
    s <- tsum fsum a 1 true ;;
    tsquare s
  else if (color_distance_type =? "l2")%string then
    q <- tsquare diff ;;
    tsum fsum q 1 true
  else raise ValueError.

(** Line 70: [(-0.5 / sigma_color**2 * color_distance_sq).exp()].  With a
    Python float the quotient is formed by Python; with a tensor,
    [-0.5 / t] is torch's reflected division [t.reciprocal() * -0.5]. *)
Definition color_kernel (sigma_color : SigmaColor)
  (color_distance_sq : Tensor) : M Tensor :=
  scaled <-
    match sigma_color with
    | SigmaFloat x =>
        s2 <- lift (py_pow2 x) ;;
        a <- lift (py_truediv F64.neg_half s2) ;;
        did OpMul (map_tensor (F64.mul a) color_distance_sq)
    | SigmaTensor t =>
        s2 <- did OpPow (map_tensor F64.square t) ;;
        r <- treciprocal s2 ;;
        a <- did OpMul (map_tensor (fun y => F64.mul y F64.neg_half) r) ;;
        tmul a color_distance_sq
    end ;;
  texp scaled.

(** Lines 72-73. *)
Definition space_kernel (kernel_size : KernelSize) (sigma_space : SigmaSpace)
  (kx ky : Z) : M Tensor :=
  k <- lift (get_gaussian_kernel2d kernel_size sigma_space) ;;
  k <- did OpGaussianKernel k ;;
  view k [-1; 1; 1; 1; kx * ky]%Z.

(** Line 76. *)
Definition weighted_average (unfolded kernel : Tensor) : M Tensor :=
  p <- tmul unfolded kernel ;;
  num <- tsum fsum p (-1) false ;;
  den <- tsum fsum kernel (-1) false ;;
  tdiv num den.

(** Lines 51-77.  [input] is a tensor by its type, which is what
    KORNIA_CHECK_IS_TENSOR (line 51) asks for. *)
Definition bilateral_blur (input : Tensor) (kernel_size : KernelSize)
  (sigma_color : SigmaColor) (sigma_space : SigmaSpace)
  (border_type color_distance_type : string) : M Tensor :=
  _ <- KORNIA_CHECK_SHAPE input ["B"; "C"; "H"; "W"]%string ;;
  sigma_color <- prepare_sigma_color sigma_color ;;
  '(kx, ky, unfolded, diff) <- windows input kernel_size border_type ;;
  color_distance_sq <- color_distance color_distance_type diff ;;
  color_kernel <- color_kernel sigma_color color_distance_sq ;;
  space_kernel <- space_kernel kernel_size sigma_space kx ky ;;
  kernel <- tmul space_kernel color_kernel ;;
  weighted_average unfolded kernel.

(** The class BilateralBlur: the stored configuration and [forward]. *)
Record BilateralBlur : Type := {
  kernel_size : KernelSize;
  sigma_color : SigmaColor;
  sigma_space : SigmaSpace;
  border_type : string;
  color_distance_type : string
}.

Definition __init__ (kernel_size : KernelSize) (sigma_color : SigmaColor)
  (sigma_space : SigmaSpace) (border_type color_distance_type : string)
  : BilateralBlur :=
  {| kernel_size := kernel_size;
     sigma_color := sigma_color;
     sigma_space := sigma_space;
     border_type := border_type;
     color_distance_type := color_distance_type |}.

Definition forward (self : BilateralBlur) (input : Tensor) : M Tensor :=
  bilateral_blur input self.(kernel_size) self.(sigma_color)
    self.(sigma_space) self.(border_type) self.(color_distance_type).

End Pipeline.

(* ================================================================== *)
(** ** A concrete exponential and a concrete Gaussian kernel builder

    Together with [sum_in_lanes] they instantiate the parameters of the
    pipeline wherever a call is evaluated on concrete data. *)

Module Libm.

(** Working precision, in bits, of the fixed-point evaluation. *)
Definition W : Z := 128.

(** A positive number [m * 2^e], its mantissa cut back to [W] bits. *)
Definition renorm (m e : Z) : Z * Z :=
  let d := Z.log2 m in
  if (W <? d)%Z then (Z.shiftr m (d - W), (e + (d - W))%Z) else (m, e).

(** Partial sums of the exponential series of [r * 2^-W]. *)
Fixpoint taylor (n : nat) (k r term acc : Z) : Z :=
  match n with
  | O => acc
  | S n' =>
      let term' := (term * r / (2 ^ W * k))%Z in
      taylor n' (k + 1)%Z r term' (acc + term')%Z
  end.

Fixpoint square_n (n : nat) (m e : Z) : Z * Z :=
  match n with
  | O => (m, e)
  | S n' => let '(m', e') := renorm (m * m) (2 * e) in square_n n' m' e'
  end.

(** The exponential on binary64.  The special values are those of
    IEEE 754; for a finite [x], [exp (x / 2^13)] is summed in fixed point,
    squared 13 times and rounded to nearest. *)
Definition exp (x : float) : float :=
  match x with
  | S754_nan => S754_nan
  | S754_infinity true => S754_zero false
  | S754_infinity false => S754_infinity false
  | S754_zero _ => F64.one
  | S754_finite s m e =>
      if (12 <? Z.log2 (Zpos m) + e)%Z then
        if s then S754_zero false else S754_infinity false
      else
        let r := Z.shiftl (cond_Zopp s (Zpos m)) (e + W - 13) in
        let t := taylor 30 1 r (2 ^ W) (2 ^ W) in
        let '(m', e') := square_n 13 t (- W) in
        binary_normalize F64.prec F64.emax m' e' false
  end.

End Libm.

(** Modelled from the spec: the one-dimensional Gaussian window of
    get_gaussian_kernel2d (kornia.filters.gaussian, not among the sources):
    exp (- x^2 / (2 sigma^2)) at the offsets x from the centre, normalised
    to sum 1. *)
Definition gaussian1d (k : Z) (sigma : float) : list float :=
  let g :=
    map (fun i =>
           let x := F64.of_Z (Z.of_nat i - k / 2) in
           Libm.exp (F64.div (F64.opp (F64.square x))
                       (F64.mul (F64.of_Z 2) (F64.square sigma))))
      (seq 0 (Z.to_nat k)) in
  map (fun v => F64.div v (F64.sum_list g)) g.

(** Modelled from the spec: the separable kernel of [ky] rows and [kx]
    columns, laid out row by row like the windows. *)
Definition gaussian2d (kx ky : Z) (s0 s1 : float) : list float :=
  flat_map (fun wy => map (fun wx => F64.mul wy wx) (gaussian1d kx s0))
    (gaussian1d ky s1).

(** Modelled from the spec: get_gaussian_kernel2d (kornia.filters.gaussian)
    is not among the sources.  The spec's SpatialKernelBuilder: a
    normalised Gaussian kernel of shape (1, ky, kx) for a pair sigma_space,
    one kernel per row of a sigma_space tensor of shape (n, 2); the kernel
    size must be odd and positive. *)
Definition gaussian_kernel2d (kernel_size : KernelSize)
  (sigma_space : SigmaSpace) : result Tensor :=
  let '(kx, ky) :=
    match kernel_size with
    | KsInt k => (k, k)
    | KsPair k0 k1 => (k0, k1)
    end in
  if kernel_component_ok kx && kernel_component_ok ky then
    match sigma_space with
    | SpacePair s0 s1 =>
        Ok (mkTensor [1; Z.to_nat ky; Z.to_nat kx] (gaussian2d kx ky s0 s1))
    | SpaceTensor t =>
        match shape t with
        | [n; 2] =>
            Ok (mkTensor [n; Z.to_nat ky; Z.to_nat kx]
                  (flat_map (fun b =>
                               gaussian2d kx ky (get t [b; 0]) (get t [b; 1]))
                     (seq 0 n)))
        | _ => Raise TypeError
        end
    end
  else Raise KernelSizeError.

(* ================================================================== *)
(** ** Vocabulary of the statements *)

(** A function of five indices, as a function of a multi-index. *)
Definition on5 (f : nat -> nat -> nat -> nat -> nat -> float)
  (idx : list nat) : float :=
  match idx with
  | [b; c; h; w; k] => f b c h w k
  | _ => F64.nan
  end.

(** [t] has shape [sh], holds one element per index, and its element at
    every index [idx] of [sh] is [f idx]. *)
Definition Repr (t : Tensor) (sh : list nat) (f : list nat -> float) : Prop :=
  shape t = sh /\ wf t /\ forall idx, in_range sh idx -> get t idx = f idx.

(** The components of a kernel size, and the window and padding sizes
    they give. *)
Definition ks_x (ks : KernelSize) : Z :=
  match ks with KsInt k => k | KsPair k0 _ => k0 end.

Definition ks_y (ks : KernelSize) : Z :=
  match ks with KsInt k => k | KsPair _ k1 => k1 end.

Definition kernel_ok (ks : KernelSize) : bool :=
  kernel_component_ok (ks_x ks) && kernel_component_ok (ks_y ks).

(** A kernel size component the spec rejects: even, or not positive. *)
Definition bad_component (k : Z) : Prop := Z.even k = true \/ (k <= 0)%Z.

Definition kx_of (ks : KernelSize) : nat := Z.to_nat (ks_x ks).
Definition ky_of (ks : KernelSize) : nat := Z.to_nat (ks_y ks).
Definition pad_x_of (ks : KernelSize) : nat := Z.to_nat ((ks_x ks - 1) / 2).
Definition pad_y_of (ks : KernelSize) : nat := Z.to_nat ((ks_y ks - 1) / 2).

(** The padding a call asks torch for is one torch accepts. *)
Definition border_ok (m : PadMode) (ks : KernelSize) (C H W : nat) : bool :=
  pad_allowed m C H W (pad_x_of ks) (pad_x_of ks) (pad_y_of ks) (pad_y_of ks).

Section Formulas.

Variable fexp : float -> float.
Variable fsum : Reduction.
Variable m : PadMode.
Variable input : Tensor.
Variables B C H W : nat.
Variable ks : KernelSize.

(** The shapes of the tensors that are summed: the windows and their
    differences, and the weights. *)
Definition windows_shape : list nat := [B; C; H; W; ky_of ks * kx_of ks].
Definition weights_shape : list nat := [B; 1; H; W; ky_of ks * kx_of ks].

(** The padded image, the spec's BorderPadder output. *)
Definition padded_image (idx : list nat) : float :=
  padded_value m input H W (pad_x_of ks) (pad_y_of ks) idx.

(** NeighborhoodSet(b,c,h,w,k): sample [k] of the window at [(h,w)], the
    windows being laid out row by row. *)
Definition neighborhood (b c h w k : nat) : float :=
  padded_image [b; c; h + k / kx_of ks; w + k mod kx_of ks].

(** d_c = neighborhood sample - centre pixel. *)
Definition channel_diff (b c h w k : nat) : float :=
  F64.sub (neighborhood b c h w k) (get input [b; c; h; w]).

(** L1: (sum over c of |d_c|) squared; the sum is over dimension 1. *)
Definition distance_l1 (b h w k : nat) : float :=
  F64.square
    (fsum windows_shape 1
       (map (fun c => F64.abs (channel_diff b c h w k)) (seq 0 C))).

(** L2: sum over c of d_c squared. *)
Definition distance_l2 (b h w k : nat) : float :=
  fsum windows_shape 1
    (map (fun c => F64.square (channel_diff b c h w k)) (seq 0 C)).

Definition distance (color_distance_type : string) (b h w k : nat) : float :=
  if (color_distance_type =? "l1")%string then distance_l1 b h w k
  else distance_l2 b h w k.

(** -0.5 / sigma_color(b)^2, as line 70 evaluates it. *)
Definition sigma_coefficient (sigma_color : SigmaColor) (b : nat) : float :=
  match sigma_color with
  | SigmaFloat x => F64.div F64.neg_half (F64.mul x x)
  | SigmaTensor t =>
      F64.mul (F64.div F64.one (F64.square (get t [b]))) F64.neg_half
  end.

(** color_weight(b,h,w,k) = exp(-0.5 * distance / sigma_color(b)^2). *)
Definition color_weight (sigma_color : SigmaColor)
  (color_distance_type : string) (b h w k : nat) : float :=
  fexp (F64.mul (sigma_coefficient sigma_color b)
          (distance color_distance_type b h w k)).

(** combined_weight = spatial weight for offset k times color weight. *)
Definition combined_weight (spatial : Tensor) (sigma_color : SigmaColor)
  (color_distance_type : string) (b h w k : nat) : float :=
  F64.mul (nth k (data spatial) F64.nan)
    (color_weight sigma_color color_distance_type b h w k).

(** The weighted sum of the window's samples over the sum of the weights;
    both sums are over the last dimension, 4. *)
Definition output_pixel (spatial : Tensor) (sigma_color : SigmaColor)
  (color_distance_type : string) (b c h w : nat) : float :=
  let K := seq 0 (ky_of ks * kx_of ks) in
  F64.div
    (fsum windows_shape 4
       (map (fun k =>
               F64.mul (neighborhood b c h w k)
                 (combined_weight spatial sigma_color color_distance_type
                    b h w k)) K))
    (fsum weights_shape 4
       (map (fun k =>
               combined_weight spatial sigma_color color_distance_type
                 b h w k) K)).

End Formulas.

(** sigma_color is usable for a batch of [B] images: a Python float whose
    square neither overflows nor is zero, or a tensor of [B] entries. *)
Definition sigma_color_ok (B : nat) (sigma_color : SigmaColor) : bool :=
  match sigma_color with
  | SigmaFloat x =>
      match py_pow2 x with
      | Ok s2 => negb (F64.is_zero s2)
      | Raise _ => false
      end
  | SigmaTensor t =>
      match shape t with
      | [L] => (L =? B) && wfb t
      | _ => false
      end
  end.

(** The operations each stage of a successful call carries out. *)
Definition prepare_ops (sigma_color : SigmaColor) : list Op :=
  match sigma_color with
  | SigmaFloat _ => []
  | SigmaTensor _ => [OpTo; OpView]
  end.

Definition windows_ops : list Op :=
  [OpPad; OpUnfold; OpUnfold; OpFlatten; OpUnsqueeze; OpSub].

Definition distance_ops (color_distance_type : string) : list Op :=
  if (color_distance_type =? "l1")%string then [OpAbs; OpSum; OpSquare]
  else [OpSquare; OpSum].

Definition color_kernel_ops (sigma_color : SigmaColor) : list Op :=
  match sigma_color with
  | SigmaFloat _ => [OpMul; OpExp]
  | SigmaTensor _ => [OpPow; OpReciprocal; OpMul; OpMul; OpExp]
  end.

Definition space_kernel_ops : list Op := [OpGaussianKernel; OpView].

Definition average_ops : list Op := [OpMul; OpSum; OpSum; OpDiv].

(** What lines 53-55 make of sigma_color: a float is kept; a tensor of
    [B] entries becomes a tensor of shape (B,1,1,1,1) with the same
    entries. *)
Definition prepared (B : nat) (sigma_color sigma_color' : SigmaColor) : Prop :=
  match sigma_color, sigma_color' with
  | SigmaFloat x, SigmaFloat x' => x' = x
  | SigmaTensor t, SigmaTensor t' =>
      Repr t' [B; 1; 1; 1; 1]
        (fun idx => match idx with
                    | [l; _; _; _; _] => get t [l]
                    | _ => F64.nan
                    end)
  | _, _ => False
  end.

(** Every operation of a call that returns, in order. *)
Definition success_ops (sigma_color : SigmaColor)
  (color_distance_type : string) : list Op :=
  prepare_ops sigma_color ++ windows_ops ++
  distance_ops color_distance_type ++ color_kernel_ops sigma_color ++
  space_kernel_ops ++ [OpMul] ++ average_ops.

(** A valid call: a well-formed image of shape (B,C,H,W) with at least one
    row and one column, an odd positive kernel size, a border type whose
    padding torch accepts for these sizes, a usable sigma_color, a distance
    type among l1 and l2, and a spatial kernel of [ky * kx] weights from
    the builder: line 73 views it as (1,1,1,1,kx * ky) whatever its shape
    was. *)
Record valid_call
  (builder : KernelSize -> SigmaSpace -> result Tensor)
  (input : Tensor) (B C H W : nat) (ks : KernelSize)
  (sigma_color : SigmaColor) (sigma_space : SigmaSpace)
  (border : string) (m : PadMode) (cdt : string) (spatial : Tensor)
  : Prop := {
  valid_shape : shape input = [B; C; H; W];
  valid_wf : wf input;
  valid_H : 0 < H;
  valid_W : 0 < W;
  valid_kernel : kernel_ok ks = true;
  valid_mode : parse_mode border = Some m;
  valid_border : border_ok m ks C H W = true;
  valid_sigma : sigma_color_ok B sigma_color = true;
  valid_distance : cdt = "l1"%string \/ cdt = "l2"%string;
  valid_spatial : builder ks sigma_space = Ok spatial;
  valid_spatial_shape : numel (shape spatial) = ky_of ks * kx_of ks;
  valid_spatial_wf : wf spatial
}.

(** sigma_color passes the check of line 54: a float is not checked, a
    tensor must have one dimension. *)
Definition sigma_color_checked (sigma_color : SigmaColor) : bool :=
  match sigma_color with
  | SigmaFloat _ => true
  | SigmaTensor t => length (shape t) =? 1
  end.

(** Every pixel of channel [c] of image [b] has the value [v b c]. *)
Definition spatially_constant (input : Tensor) (B C H W : nat)
  (v : nat -> nat -> float) : Prop :=
  forall b c h w, b < B -> c < C -> h < H -> w < W ->
    get input [b; c; h; w] = v b c.

(* ================================================================== *)
(** ** Example calls *)

Definition bilateral_blur_f64 :
  Tensor -> KernelSize -> SigmaColor -> SigmaSpace -> string -> string ->
  M Tensor :=
  bilateral_blur Libm.exp sum_in_lanes gaussian_kernel2d.

(** A 2 x 2 image with one channel. *)
Definition ex_image : Tensor :=
  mkTensor [1; 1; 2; 2] [F64.of_Z 1; F64.of_Z 2; F64.of_Z 3; F64.of_Z 4].

(** A 2 x 2 image with three channels. *)
Definition ex_color_image : Tensor :=
  mkTensor [1; 3; 2; 2]
    [F64.of_Z 1; F64.of_Z 2; F64.of_Z 3; F64.of_Z 4;
     F64.of_Z 8; F64.of_Z 6; F64.of_Z 4; F64.of_Z 2;
     F64.of_Z 5; F64.of_Z 9; F64.of_Z 5; F64.of_Z 9].

(** sigma_space = (1.0, 1.0) and its 3 x 3 kernel. *)
Definition ex_sigma_space : SigmaSpace := SpacePair F64.one F64.one.

Definition ex_kernel : Tensor :=
  Eval vm_compute in
    match gaussian_kernel2d (KsInt 3) ex_sigma_space with
    | Ok t => t
    | Raise _ => mkTensor [] []
    end.

(** Two images in a batch, one pixel each. *)
Definition ex_batch : Tensor :=
  mkTensor [2; 1; 1; 1] [F64.of_Z 1; F64.of_Z 2].

(** sigma_color vectors of length 1 and 3. *)
Definition ex_sigma1 : Tensor := mkTensor [1] [F64.one].
Definition ex_sigma3 : Tensor := mkTensor [3] [F64.one; F64.one; F64.one].


(** One pixel. *)
Definition ex_pixel : Tensor := mkTensor [1; 1; 1; 1] [F64.one].

(** The 2 x 2 images of ones and of nines, and the value 0.1. *)
Definition ex_ones : Tensor :=
  mkTensor [1; 1; 2; 2] [F64.one; F64.one; F64.one; F64.one].

Definition ex_nines : Tensor :=
  mkTensor [1; 1; 2; 2] [F64.of_Z 9; F64.of_Z 9; F64.of_Z 9; F64.of_Z 9].

Definition ex_tenth : float :=
  Eval vm_compute in F64.div (F64.of_Z 1) (F64.of_Z 10).

(** The all-zero image of shape (1,1,5,5) and sigma_space = (1.5, 1.5). *)
Definition ex_zeros : Tensor := mkTensor [1; 1; 5; 5] (repeat F64.zero 25).

Definition ex_sigma_space15 : SigmaSpace :=
  Eval vm_compute in
    SpacePair (F64.div (F64.of_Z 3) (F64.of_Z 2))
      (F64.div (F64.of_Z 3) (F64.of_Z 2)).

(* ================================================================== *)
(** ** Further vocabulary and example data *)

(** The window offset of the centre pixel. *)
Definition centre_index (ks : KernelSize) : nat :=
  pad_y_of ks * kx_of ks + pad_x_of ks.

(** Inputs that are turned away: a 3-D tensor, a sigma_color matrix, an
    image without rows, a sigma_space tensor of the wrong shape, and the
    float 2^700, whose square overflows. *)
Definition ex_rank3 : Tensor := mkTensor [2; 2; 2] (repeat F64.one 8).

Definition ex_sigma_matrix : Tensor := mkTensor [1; 1] [F64.one].

Definition ex_no_rows : Tensor := mkTensor [1; 1; 0; 2] [].

Definition ex_bad_sigma_space : SigmaSpace :=
  SpaceTensor (mkTensor [3] [F64.one; F64.one; F64.one]).

Definition ex_huge : float := Eval vm_compute in F64.of_Z (2 ^ 700).

(** An image with a NaN pixel, a per-image sigma_color with a zero entry,
    and two batches of two images that agree on the first image. *)
Definition ex_nan_image : Tensor :=
  mkTensor [1; 2; 2; 2]
    [F64.nan; F64.one; F64.one; F64.one;
     F64.one; F64.one; F64.one; F64.one].

Definition ex_sigma_with_zero : Tensor := mkTensor [2] [F64.one; F64.zero].

Definition ex_batch22 : Tensor :=
  mkTensor [2; 1; 2; 2]
    [F64.of_Z 1; F64.of_Z 2; F64.of_Z 3; F64.of_Z 4;
     F64.of_Z 5; F64.of_Z 6; F64.of_Z 7; F64.of_Z 8].

Definition ex_batch22_other : Tensor :=
  mkTensor [2; 1; 2; 2]
    [F64.of_Z 1; F64.of_Z 2; F64.of_Z 3; F64.of_Z 4;
     F64.of_Z 9; F64.of_Z 9; F64.of_Z 9; F64.of_Z 9].

(** A batch of no images, and an image of zeros. *)
Definition ex_empty_batch : Tensor := mkTensor [0; 1; 2; 2] [].

Definition ex_zero_image : Tensor :=
  mkTensor [1; 1; 2; 2] (repeat F64.zero 4).

(* ================================================================== *)
(** * Properties *)

(** ** Sums, whatever the order of the additions *)

Lemma add_nan_l (x : float) : F64.add F64.nan x = F64.nan.
Proof. reflexivity. Qed.

Lemma add_nan_r (x : float) : F64.add x F64.nan = F64.nan.
Proof. now destruct x. Qed.

Lemma add_zero_zero (x y : float) :
  F64.is_zero x = true -> F64.is_zero y = true ->
  F64.is_zero (F64.add x y) = true.
Proof.
  destruct x as [[|] | [|] | | [|] mx ex]; try discriminate;
    destruct y as [[|] | [|] | | [|] my ey]; try discriminate; reflexivity.
Qed.

Lemma add_zero_l (z x : float) :
  F64.is_zero z = true -> F64.is_zero x = false -> F64.add z x = x.
Proof.
  destruct z as [[|] | | |]; try discriminate;
    destruct x as [[|] | [|] | | [|] mx ex]; try discriminate; reflexivity.
Qed.

Lemma add_zero_r (x z : float) :
  F64.is_zero z = true -> F64.is_zero x = false -> F64.add x z = x.
Proof.
  destruct z as [[|] | | |]; try discriminate;
    destruct x as [[|] | [|] | | [|] mx ex]; try discriminate; reflexivity.
Qed.

Lemma sum_tree_nan (t : SumTree) (l : list float) (i : nat) :
  In i (terms t) -> nth i l F64.zero = F64.nan -> sum_tree t l = F64.nan.
Proof.
  intros Hi Hn. induction t as [j | | a IHa b IHb]; cbn [terms sum_tree] in *.
  - destruct Hi as [<- | []]. exact Hn.
  - contradiction.
  - apply in_app_or in Hi as [Hi | Hi].
    + rewrite (IHa Hi). apply add_nan_l.
    + rewrite (IHb Hi). apply add_nan_r.
Qed.

Lemma sum_tree_zeros (t : SumTree) (l : list float) :
  (forall x, In x l -> F64.is_zero x = true) ->
  F64.is_zero (sum_tree t l) = true.
Proof.
  intros Hl. induction t as [j | | a IHa b IHb]; cbn [sum_tree].
  - destruct (nth_in_or_default j l F64.zero) as [Hin | ->];
      [now apply Hl | reflexivity].
  - reflexivity.
  - now apply add_zero_zero.
Qed.

Lemma sum_tree_pos_zeros (t : SumTree) (l : list float) :
  (forall x, In x l -> x = F64.zero) -> sum_tree t l = F64.zero.
Proof.
  intros Hl. induction t as [j | | a IHa b IHb]; cbn [sum_tree].
  - destruct (nth_in_or_default j l F64.zero) as [Hin | ->];
      [now apply Hl | reflexivity].
  - reflexivity.
  - now rewrite IHa, IHb.
Qed.

(** A part of the additions that does not hold entry [i] gives a zero; a
    part that holds it, once, gives that entry. *)
Lemma sum_tree_among_zeros (t : SumTree) (l : list float) (i : nat) :
  F64.is_zero (nth i l F64.zero) = false ->
  (forall j, j <> i -> F64.is_zero (nth j l F64.zero) = true) ->
  NoDup (terms t) ->
  (In i (terms t) -> sum_tree t l = nth i l F64.zero) /\
  (~ In i (terms t) -> F64.is_zero (sum_tree t l) = true).
Proof.
  intros Hx Hz.
  induction t as [j | | a IHa b IHb]; cbn [terms sum_tree]; intros Hnd.
  - split.
    + intros [<- | []]. reflexivity.
    + intros Hn. apply Hz. intros ->. apply Hn. now left.
  - split; [contradiction | reflexivity].
  - pose proof (NoDup_app_remove_l _ _ Hnd) as Hb.
    pose proof (NoDup_app_remove_r _ _ Hnd) as Ha.
    destruct (IHa Ha) as [Ia Za], (IHb Hb) as [Ib Zb].
    assert (Hdis : In i (terms a) -> ~ In i (terms b)).
    { intros H1 H2. revert Hnd. clear - H1 H2.
      induction (terms a) as [|x ta IH]; [contradiction|].
      cbn [app]. intros Hnd. apply NoDup_cons_iff in Hnd as [Hx Hnd].
      destruct H1 as [-> | H1].
      - apply Hx. apply in_or_app. now right.
      - now apply IH. }
    split.
    + intros Hin. apply in_app_or in Hin as [Hin | Hin].
      * rewrite (Ia Hin). apply add_zero_r; [|exact Hx].
        apply Zb. now apply Hdis.
      * rewrite (Ib Hin). apply add_zero_l; [|exact Hx].
        apply Za. intros Hin'. now apply (Hdis Hin').
    + intros Hn. apply add_zero_zero.
      * apply Za. intros Hin. apply Hn. apply in_or_app. now left.
      * apply Zb. intros Hin. apply Hn. apply in_or_app. now right.
Qed.

(** Every order of additions that takes each entry once is a summation:
    what the statements below ask of a reduction holds of torch's [sum]
    however it lays out its partial sums. *)
Theorem sum_by_sums (trees : list nat -> nat -> nat -> SumTree) :
  complete trees -> sums (sum_by trees).
Proof.
  intros Hc sh d. unfold sum_by. constructor.
  - intros l Hin. apply In_nth with (d := F64.zero) in Hin.
    destruct Hin as (i & Hi & Hn).
    apply (sum_tree_nan _ l i); [|exact Hn].
    apply (Permutation_in i (Permutation_sym (Hc sh d (length l)))).
    apply in_seq. lia.
  - intros l Hl. now apply sum_tree_zeros.
  - intros l Hl. now apply sum_tree_pos_zeros.
  - intros l i Hx Hz.
    assert (Hi : i < length l).
    { destruct (Nat.lt_ge_cases i (length l)) as [Hlt | Hge]; [exact Hlt|].
      rewrite nth_overflow in Hx by exact Hge. discriminate. }
    apply (@sum_tree_among_zeros (trees sh d (length l)) l i Hx Hz).
    + apply (Permutation_NoDup (Permutation_sym (Hc sh d (length l)))).
      apply seq_NoDup.
    + apply (Permutation_in i (Permutation_sym (Hc sh d (length l)))).
      apply in_seq. lia.
Qed.

Lemma summation_ext (f g : list float -> float) :
  (forall l, f l = g l) -> summation g -> summation f.
Proof.
  intros E [Hn Hz Hp Ho]. constructor.
  - intros l Hl. rewrite E. now apply Hn.
  - intros l Hl. rewrite E. now apply Hz.
  - intros l Hl. rewrite E. now apply Hp.
  - intros l i Hx Hj. rewrite E. now apply Ho.
Qed.

Lemma terms_chain (start : SumTree) (ids : list nat) :
  terms (chain start ids) = terms start ++ ids.
Proof.
  unfold chain. revert start.
  induction ids as [|i ids IH]; intros start; cbn [fold_left].
  - now rewrite app_nil_r.
  - rewrite IH. cbn [terms]. now rewrite <- app_assoc.
Qed.

Lemma sum_tree_chain (start : SumTree) (ids : list nat) (l : list float) :
  sum_tree (chain start ids) l =
  fold_left F64.add (map (fun i => nth i l F64.zero) ids) (sum_tree start l).
Proof.
  unfold chain. revert start.
  induction ids as [|i ids IH]; intros start; cbn [fold_left map];
    [reflexivity|].
  now rewrite IH.
Qed.

Lemma map_nth_indices (l : list float) :
  map (fun i => nth i l F64.zero) (seq 0 (length l)) = l.
Proof.
  induction l as [|a l IH]; [reflexivity|].
  cbn [length seq map nth]. f_equal.
  rewrite <- seq_shift, map_map. exact IH.
Qed.

Lemma in_order_complete : complete in_order.
Proof. intros sh d n. unfold in_order. now rewrite terms_chain. Qed.

(** Adding in index order is the chain of all entries. *)
Lemma sum_in_order_chain (sh : list nat) (d : nat) (l : list float) :
  sum_in_order sh d l = sum_by in_order sh d l.
Proof.
  unfold sum_in_order, sum_by, in_order, F64.sum_list.
  now rewrite sum_tree_chain, map_nth_indices.
Qed.

Lemma sum_in_order_sums : sums sum_in_order.
Proof.
  intros sh d.
  apply (@summation_ext _ _ (sum_in_order_chain sh d)).
  apply sum_by_sums, in_order_complete.
Qed.

Lemma lanes_step (A B C D : list nat) (a b c d : nat) :
  Permutation ((A ++ [a]) ++ (B ++ [b]) ++ (C ++ [c]) ++ (D ++ [d]))
    ((A ++ B ++ C ++ D) ++ [a; b; c; d]).
Proof.
  transitivity ((a :: A) ++ (b :: B) ++ (c :: C) ++ (d :: D)).
  { repeat apply Permutation_app;
      apply Permutation_sym, Permutation_cons_append. }
  transitivity ([a; b; c; d] ++ (A ++ B ++ C ++ D));
    [|apply Permutation_app_comm].
  cbn [app]. apply perm_skip.
  transitivity (b :: A ++ B ++ (c :: C) ++ (d :: D));
    [apply Permutation_sym, Permutation_middle|].
  apply perm_skip.
  rewrite !(app_assoc A B).
  transitivity (c :: (A ++ B) ++ C ++ d :: D);
    [apply Permutation_sym, Permutation_middle|].
  apply perm_skip.
  rewrite !(app_assoc (A ++ B) C).
  apply Permutation_sym, Permutation_middle.
Qed.

(** The four lanes of [q] vectors hold the first [4 * q] entries. *)
Lemma lanes_cover (q : nat) :
  Permutation
    (map (fun r => 4 * r + 0) (seq 0 q) ++ map (fun r => 4 * r + 1) (seq 0 q) ++
     map (fun r => 4 * r + 2) (seq 0 q) ++ map (fun r => 4 * r + 3) (seq 0 q))
    (seq 0 (4 * q)).
Proof.
  induction q as [|q IH]; [reflexivity|].
  replace (4 * S q) with (4 * q + 4) by lia.
  rewrite !seq_S, !map_app, seq_app. cbn [map seq Nat.add].
  etransitivity; [apply lanes_step|].
  apply Permutation_app; [exact IH|].
  replace (4 * q + 0) with (4 * q) by lia.
  replace (S (4 * q)) with (4 * q + 1) by lia.
  replace (S (4 * q + 1)) with (4 * q + 2) by lia.
  replace (S (4 * q + 2)) with (4 * q + 3) by lia.
  reflexivity.
Qed.

Lemma lanes_or_order_complete : complete lanes_or_order.
Proof.
  intros sh d n. unfold lanes_or_order.
  destruct (contiguous sh d); [|apply in_order_complete].
  unfold lanes_tree, lane. cbn [terms]. rewrite !terms_chain.
  cbn [terms app]. rewrite <- !app_assoc.
  etransitivity; [apply Permutation_app_comm|].
  transitivity (seq 0 (4 * (n / 4)) ++ seq (4 * (n / 4)) (n mod 4)).
  - apply Permutation_app; [apply lanes_cover | reflexivity].
  - rewrite <- seq_app. cbn [Nat.add]. now rewrite <- Nat.div_mod_eq.
Qed.

Lemma sum_in_lanes_sums : sums sum_in_lanes.
Proof. apply sum_by_sums, lanes_or_order_complete. Qed.

(** A single entry other than [-0] sums to itself. *)
Lemma sum_of_one (f : list float -> float) (x : float) :
  summation f -> x <> S754_zero true -> f [x] = x.
Proof.
  intros Hf Hx. destruct (F64.is_zero x) eqn:Ez.
  - destruct x as [[|] | | |]; try discriminate; [congruence|].
    apply (sum_of_pos_zeros Hf). intros y [<- | []]. reflexivity.
  - apply (@sum_among_zeros f Hf [x] 0 Ez).
    intros [|[|j]] Hj; [congruence | reflexivity | reflexivity].
Qed.

Lemma sum_zero_or_nan (f : list float -> float) (l : list float) :
  summation f ->
  (forall x, In x l -> x = F64.zero \/ x = F64.nan) ->
  f l = F64.zero \/ f l = F64.nan.
Proof.
  intros Hf Hl.
  assert (Hcases : (forall x, In x l -> x = F64.zero) \/ In F64.nan l).
  { induction l as [|a l IH]; [left; intros x []|].
    destruct (Hl a (or_introl eq_refl)) as [-> | ->];
      [|right; now left].
    destruct IH as [IH | IH].
    - intros x Hx. apply Hl. now right.
    - left. intros x [<- | Hx]; [reflexivity | now apply IH].
    - right. now right. }
  destruct Hcases as [Hz | Hn].
  - left. now apply (sum_of_pos_zeros Hf).
  - right. now apply (sum_of_nan Hf).
Qed.

(** ** Multi-indices and row-major storage *)

Lemma length_concat_uniform (A B : Type) (g : A -> list B) (m : nat)
  (l : list A) :
  (forall a, length (g a) = m) -> length (concat (map g l)) = length l * m.
Proof.
  intros Hg. induction l as [|a l IH]; simpl; auto.
  rewrite length_app, Hg, IH. reflexivity.
Qed.

Lemma length_indices (sh : list nat) : length (indices sh) = numel sh.
Proof.
  induction sh as [|n sh IH]; simpl; auto.
  rewrite length_concat_uniform with (m := numel sh).
  - now rewrite length_seq.
  - intros a. now rewrite length_map.
Qed.

Lemma ravel_lt (sh idx : list nat) :
  in_range sh idx -> ravel sh idx < numel sh.
Proof.
  revert idx. induction sh as [|n sh IH]; intros [|i idx]; simpl; try tauto.
  - lia.
  - intros [Hi Hr]. specialize (IH _ Hr). nia.
Qed.

Lemma nth_concat_uniform (A B : Type) (g : A -> list B) (m : nat) (d : B)
  (l : list A) (a0 : A) (i r : nat) :
  (forall a, length (g a) = m) -> i < length l -> r < m ->
  nth (i * m + r) (concat (map g l)) d = nth r (g (nth i l a0)) d.
Proof.
  intros Hg. revert i. induction l as [|a l IH]; intros i Hi Hr; simpl in *.
  - lia.
  - destruct i as [|i]; simpl.
    + rewrite app_nth1; auto. rewrite Hg; auto.
    + rewrite app_nth2 by (rewrite Hg; lia).
      rewrite Hg. replace (m + i * m + r - m) with (i * m + r) by lia.
      apply IH; auto; lia.
Qed.

Lemma nth_map_in (A B : Type) (f : A -> B) (l : list A) (n : nat) (d : B)
  (d' : A) :
  n < length l -> nth n (map f l) d = f (nth n l d').
Proof.
  intros H. rewrite nth_indep with (d' := f d').
  - apply map_nth.
  - now rewrite length_map.
Qed.

Lemma nth_indices (sh idx d : list nat) :
  in_range sh idx -> nth (ravel sh idx) (indices sh) d = idx.
Proof.
  revert idx. induction sh as [|n sh IH]; intros [|i idx]; simpl; try tauto.
  intros [Hi Hr].
  rewrite nth_concat_uniform with (a0 := 0).
  - rewrite seq_nth by auto. simpl.
    rewrite nth_map_in with (d' := d).
    + now rewrite IH.
    + rewrite length_indices. now apply ravel_lt.
  - intros a. now rewrite length_map, length_indices.
  - now rewrite length_seq.
  - now apply ravel_lt.
Qed.

Lemma get_tabulate (sh : list nat) (f : list nat -> float) (idx : list nat) :
  in_range sh idx -> get (tabulate sh f) idx = f idx.
Proof.
  intros H. unfold get, tabulate; simpl.
  rewrite nth_map_in with (d' := []).
  - now rewrite nth_indices.
  - rewrite length_indices. now apply ravel_lt.
Qed.

Lemma wf_tabulate (sh : list nat) (f : list nat -> float) :
  wf (tabulate sh f).
Proof. unfold wf, tabulate; simpl. now rewrite length_map, length_indices. Qed.

Lemma get_map_tensor (g : float -> float) (t : Tensor) (idx : list nat) :
  wf t -> in_range (shape t) idx ->
  get (map_tensor g t) idx = g (get t idx).
Proof.
  intros Hwf Hr. unfold get, map_tensor; simpl.
  apply nth_map_in. rewrite Hwf. now apply ravel_lt.
Qed.

Lemma wf_map_tensor (g : float -> float) (t : Tensor) :
  wf t -> wf (map_tensor g t).
Proof. unfold wf, map_tensor; simpl. now rewrite length_map. Qed.

(** ** Tensors described by shape and elements *)

Lemma in_range_cons_inv (n : nat) (sh idx : list nat) :
  in_range (n :: sh) idx ->
  exists i idx', idx = i :: idx' /\ i < n /\ in_range sh idx'.
Proof. destruct idx as [|i idx']; simpl; [tauto|]. intros []; eauto. Qed.

Lemma in_range_nil_inv (idx : list nat) : in_range [] idx -> idx = [].
Proof. destruct idx; simpl; tauto. Qed.

Ltac split_idx Hr :=
  repeat match type of Hr with
    | in_range (_ :: _) _ =>
        apply in_range_cons_inv in Hr; destruct Hr as (? & ? & -> & ? & Hr)
    | in_range [] _ => apply in_range_nil_inv in Hr; subst
    end.

Lemma Repr_tabulate (sh : list nat) (f : list nat -> float) :
  Repr (tabulate sh f) sh f.
Proof.
  split; [reflexivity|]. split; [apply wf_tabulate|].
  intros idx H. now apply get_tabulate.
Qed.

Lemma Repr_ext (t : Tensor) (sh : list nat) (f g : list nat -> float) :
  Repr t sh f -> (forall idx, in_range sh idx -> f idx = g idx) ->
  Repr t sh g.
Proof.
  intros (Hs & Hw & Hg) Hfg. repeat split; auto.
  intros idx H. rewrite Hg by auto. now apply Hfg.
Qed.

Lemma Repr_tabulate_ext (sh : list nat) (f g : list nat -> float) :
  (forall idx, in_range sh idx -> f idx = g idx) -> Repr (tabulate sh f) sh g.
Proof. intros H. eapply Repr_ext; [apply Repr_tabulate | exact H]. Qed.

Lemma Repr_self (t : Tensor) : wf t -> Repr t (shape t) (get t).
Proof. intros H. repeat split; auto. Qed.

Lemma Repr_map (g : float -> float) (t : Tensor) (sh : list nat)
  (f : list nat -> float) :
  Repr t sh f -> Repr (map_tensor g t) sh (fun idx => g (f idx)).
Proof.
  intros (Hs & Hw & Hg). split; [exact Hs|]. split; [now apply wf_map_tensor|].
  intros idx H. rewrite get_map_tensor; auto.
  - now rewrite Hg.
  - now rewrite Hs.
Qed.

Lemma Repr_shape (t : Tensor) (sh : list nat) (f : list nat -> float) :
  Repr t sh f -> shape t = sh.
Proof. now intros (H & _). Qed.

Lemma Repr_get (t : Tensor) (sh : list nat) (f : list nat -> float)
  (idx : list nat) :
  Repr t sh f -> in_range sh idx -> get t idx = f idx.
Proof. intros (_ & _ & H). apply H. Qed.

(** ** The torch operations on tensors of the shapes the pipeline meets *)

Lemma pad_ok (x : Tensor) (B C H W pl pr pt pb : nat) (mode : string)
  (m : PadMode) :
  shape x = [B; C; H; W] -> parse_mode mode = Some m ->
  pad_allowed m C H W pl pr pt pb = true ->
  pad x (pl, pr, pt, pb) mode =
  did OpPad (tabulate [B; C; pt + H + pb; pl + W + pr]
               (padded_value m x H W pl pt)).
Proof. intros Hs Hm Ha. unfold pad. now rewrite Hm, Hs, Ha. Qed.

Lemma unfold_rows (x : Tensor) (B C Hp Wp ky : nat) (f : list nat -> float) :
  Repr x [B; C; Hp; Wp] f -> ky <= Hp ->
  exists y, unfold x 2 ky 1 = did OpUnfold y /\
    Repr y [B; C; Hp - ky + 1; Wp; ky]
      (fun idx => match idx with
                  | [b; c; h; w; i] => f [b; c; h + i; w]
                  | _ => F64.nan
                  end).
Proof.
  intros Hx Hk. pose proof (Repr_shape Hx) as Hs.
  unfold unfold. rewrite Hs. cbn [length norm_dim nth].
  change (norm_dim 4 2) with (Some 2). cbn [nth].
  replace ((ky <=? Hp) && (0 <? 1)) with true
    by (symmetry; apply andb_true_intro; split;
        [now apply Nat.leb_le | reflexivity]).
  eexists; split; [reflexivity|].
  cbn [set_nth app]. rewrite Nat.div_1_r.
  apply Repr_tabulate_ext. intros idx Hr. split_idx Hr.
  cbn [nth last removelast set_nth].
  rewrite Nat.mul_1_r. apply (Repr_get _ Hx). simpl. repeat split; auto; lia.
Qed.

Lemma unfold_cols (x : Tensor) (B C H Wp ky kx : nat)
  (f : list nat -> float) :
  Repr x [B; C; H; Wp; ky] f -> kx <= Wp ->
  exists y, unfold x 3 kx 1 = did OpUnfold y /\
    Repr y [B; C; H; Wp - kx + 1; ky; kx]
      (fun idx => match idx with
                  | [b; c; h; w; i; j] => f [b; c; h; w + j; i]
                  | _ => F64.nan
                  end).
Proof.
  intros Hx Hk. pose proof (Repr_shape Hx) as Hs.
  unfold unfold. rewrite Hs.
  change (norm_dim (length [B; C; H; Wp; ky]) 3) with (Some 3). cbn [nth].
  replace ((kx <=? Wp) && (0 <? 1)) with true
    by (symmetry; apply andb_true_intro; split;
        [now apply Nat.leb_le | reflexivity]).
  eexists; split; [reflexivity|].
  cbn [set_nth app]. rewrite Nat.div_1_r.
  apply Repr_tabulate_ext. intros idx Hr. split_idx Hr.
  cbn [nth last removelast set_nth].
  rewrite Nat.mul_1_r. apply (Repr_get _ Hx). simpl. repeat split; auto; lia.
Qed.

Lemma flatten_windows (x : Tensor) (B C H W ky kx : nat)
  (f : list nat -> float) :
  Repr x [B; C; H; W; ky; kx] f -> 0 < kx ->
  exists y, flatten x (-2) = did OpFlatten y /\
    Repr y [B; C; H; W; ky * kx]
      (fun idx => match idx with
                  | [b; c; h; w; k] => f [b; c; h; w; k / kx; k mod kx]
                  | _ => F64.nan
                  end).
Proof.
  intros Hx Hk. destruct Hx as (Hs & Hw & Hg).
  unfold flatten. rewrite Hs.
  change (norm_dim (length [B; C; H; W; ky; kx]) (-2)) with (Some 4).
  eexists; split; [reflexivity|].
  cbn [firstn skipn app numel fold_right]. rewrite Nat.mul_1_r.
  split; [reflexivity|]. split.
  - unfold wf in *. cbn [shape data]. rewrite Hw, Hs.
    cbn [numel fold_right]. lia.
  - intros idx Hr. split_idx Hr.
    rewrite <- Hg.
    + unfold get. cbn [shape]. rewrite Hs. f_equal.
      cbn [ravel numel fold_right].
      match goal with
      | Hk : ?k < ky * kx |- _ => pose proof (Nat.div_mod_eq k kx)
      end.
      nia.
    + simpl. repeat split; auto.
      * apply Nat.Div0.div_lt_upper_bound. lia.
      * apply Nat.mod_upper_bound. lia.
Qed.

Lemma unsqueeze_last (x : Tensor) (B C H W : nat) :
  shape x = [B; C; H; W] -> wf x ->
  exists y, unsqueeze x (-1) = did OpUnsqueeze y /\
    Repr y [B; C; H; W; 1]
      (fun idx => match idx with
                  | [b; c; h; w; _] => get x [b; c; h; w]
                  | _ => F64.nan
                  end).
Proof.
  intros Hs Hw. unfold unsqueeze. rewrite Hs.
  change (norm_dim (S (length [B; C; H; W])) (-1)) with (Some 4).
  eexists; split; [reflexivity|]. cbn [insert_nth].
  split; [reflexivity|]. split.
  - unfold wf in *. cbn [shape data]. rewrite Hw, Hs.
    cbn [numel fold_right]. lia.
  - intros idx Hr. split_idx Hr.
    unfold get. cbn [shape data]. rewrite Hs. f_equal.
    cbn [ravel numel fold_right]. nia.
Qed.

(** Broadcasting of two shapes of the same rank. *)
Lemma lpad_same (sh : list nat) : lpad (length sh) sh = sh.
Proof. unfold lpad. now rewrite Nat.sub_diag. Qed.

Lemma broadcast_shapes_same (s1 s2 : list nat) :
  length s1 = length s2 -> broadcast_shapes s1 s2 = broadcast_same s1 s2.
Proof.
  intros H. unfold broadcast_shapes. rewrite <- H, Nat.max_id.
  rewrite lpad_same. rewrite H. now rewrite lpad_same.
Qed.

Lemma in_range_length (sh idx : list nat) :
  in_range sh idx -> length idx = length sh.
Proof.
  revert idx. induction sh as [|n sh IH]; intros [|i idx]; simpl; try tauto.
  intros [_ H]. now rewrite (IH _ H).
Qed.

Lemma broadcast_same_length (s1 s2 sh : list nat) :
  broadcast_same s1 s2 = Some sh ->
  length sh = length s1 /\ length sh = length s2.
Proof.
  revert s2 sh. induction s1 as [|a s1 IH]; intros [|b s2] sh; simpl;
    try discriminate.
  - intros [= <-]. auto.
  - destruct (broadcast_same s1 s2) as [r|] eqn:E.
    + destruct (IH _ _ E) as [H1 H2].
      destruct ((a =? b) || (b =? 1)); [|destruct (a =? 1)]; simpl;
        try discriminate; intros [= <-]; simpl; auto.
    + destruct ((a =? b) || (b =? 1)); [|destruct (a =? 1)]; simpl;
        discriminate.
Qed.

Lemma bmask_lt (n i : nat) : i < n -> bmask n i = i.
Proof.
  unfold bmask. destruct (Nat.eqb_spec n 1); [lia | reflexivity].
Qed.

Lemma bmask_one (i : nat) : bmask 1 i = 0.
Proof. reflexivity. Qed.

Ltac range := simpl; repeat split; (assumption || lia).

Ltac zero_unit :=
  repeat match goal with
    | Hlt : ?v < 1 |- _ =>
        let E := fresh in
        assert (E : v = 0) by (clear - Hlt; lia); subst v; clear Hlt
    end.

Ltac unmask :=
  cbn [bmask_all];
  repeat match goal with
    | Hlt : ?i < ?n |- _ => progress rewrite !(bmask_lt Hlt)
    end;
  rewrite ?bmask_one.

Lemma broadcast_same_range (s1 s2 sh idx : list nat) :
  broadcast_same s1 s2 = Some sh -> in_range sh idx ->
  in_range s1 (bmask_all s1 idx) /\ in_range s2 (bmask_all s2 idx).
Proof.
  revert s2 sh idx.
  induction s1 as [|a s1 IH]; intros [|b s2] sh idx; simpl; try discriminate.
  - intros [= <-] H. apply in_range_nil_inv in H. subst. simpl. auto.
  - destruct (broadcast_same s1 s2) as [r|] eqn:E.
    2:{ destruct ((a =? b) || (b =? 1)); [|destruct (a =? 1)]; simpl;
        discriminate. }
    unfold bmask.
    destruct (Nat.eqb_spec a b) as [Hab|Hab];
      destruct (Nat.eqb_spec b 1) as [Hb|Hb];
      destruct (Nat.eqb_spec a 1) as [Ha|Ha];
      simpl; try discriminate; intros [= <-] Hr; split_idx Hr;
      destruct (IH _ _ _ E Hr) as [H1 H2]; simpl; repeat split; auto; lia.
Qed.

Lemma bidx_same (sh idx : list nat) :
  length idx = length sh -> bidx sh idx = bmask_all sh idx.
Proof. intros H. unfold bidx. now rewrite H, Nat.sub_diag. Qed.

Lemma broadcast_repr (op : Op) (f : float -> float -> float) (a b : Tensor)
  (sa sb sh : list nat) (fa fb : list nat -> float) :
  Repr a sa fa -> Repr b sb fb -> length sa = length sb ->
  broadcast_same sa sb = Some sh ->
  exists y, broadcast_op op f a b = did op y /\
    Repr y sh (fun idx => f (fa (bmask_all sa idx)) (fb (bmask_all sb idx))).
Proof.
  intros Ha Hb Hl Hsh.
  pose proof (Repr_shape Ha) as Hsa. pose proof (Repr_shape Hb) as Hsb.
  unfold broadcast_op. rewrite Hsa, Hsb.
  rewrite broadcast_shapes_same by exact Hl. rewrite Hsh.
  eexists; split; [reflexivity|].
  apply Repr_tabulate_ext. intros idx Hr.
  destruct (broadcast_same_length _ _ Hsh) as [L1 L2].
  destruct (broadcast_same_range _ _ _ Hsh Hr) as [R1 R2].
  pose proof (in_range_length _ _ Hr) as Li.
  rewrite !bidx_same by congruence.
  now rewrite (Repr_get _ Ha R1), (Repr_get _ Hb R2).
Qed.

Lemma broadcast_fails (op : Op) (f : float -> float -> float) (a b : Tensor) :
  length (shape a) = length (shape b) ->
  broadcast_same (shape a) (shape b) = None ->
  broadcast_op op f a b = raise RuntimeError.
Proof.
  intros Hl Hn. unfold broadcast_op.
  now rewrite broadcast_shapes_same, Hn by exact Hl.
Qed.

Lemma sum_channels (fsum : Reduction) (x : Tensor) (B C H W K : nat)
  (f : list nat -> float) :
  Repr x [B; C; H; W; K] f ->
  exists y, tsum fsum x 1 true = did OpSum y /\
    Repr y [B; 1; H; W; K]
      (fun idx => match idx with
                  | [b; _; h; w; k] =>
                      fsum [B; C; H; W; K] 1
                        (map (fun c => f [b; c; h; w; k]) (seq 0 C))
                  | _ => F64.nan
                  end).
Proof.
  intros Hx. pose proof (Repr_shape Hx) as Hs.
  unfold tsum. rewrite Hs.
  change (norm_dim (length [B; C; H; W; K]) 1) with (Some 1).
  eexists; split; [reflexivity|]. cbn [set_nth nth].
  apply Repr_tabulate_ext. intros idx Hr. split_idx Hr.
  f_equal. apply map_ext_in. intros c Hc. apply in_seq in Hc.
  cbn [set_nth]. apply (Repr_get _ Hx). simpl. repeat split; auto; lia.
Qed.

Lemma sum_last (fsum : Reduction) (x : Tensor) (B C H W K : nat)
  (f : list nat -> float) :
  Repr x [B; C; H; W; K] f ->
  exists y, tsum fsum x (-1) false = did OpSum y /\
    Repr y [B; C; H; W]
      (fun idx => match idx with
                  | [b; c; h; w] =>
                      fsum [B; C; H; W; K] 4
                        (map (fun k => f [b; c; h; w; k]) (seq 0 K))
                  | _ => F64.nan
                  end).
Proof.
  intros Hx. pose proof (Repr_shape Hx) as Hs.
  unfold tsum. rewrite Hs.
  change (norm_dim (length [B; C; H; W; K]) (-1)) with (Some 4).
  eexists; split; [reflexivity|]. cbn [remove_nth nth].
  apply Repr_tabulate_ext. intros idx Hr. split_idx Hr.
  f_equal. apply map_ext_in. intros k Hk. apply in_seq in Hk.
  cbn [insert_nth]. apply (Repr_get _ Hx). simpl. repeat split; auto; lia.
Qed.

Lemma infer_shape_per_batch (n : nat) :
  infer_shape n [-1; 1; 1; 1; 1]%Z = Some [n; 1; 1; 1; 1].
Proof.
  unfold infer_shape. cbv -[Nat.modulo Nat.div Nat.eqb].
  now rewrite Nat.mod_1_r, Nat.div_1_r.
Qed.

Lemma view_per_batch (t : Tensor) (L : nat) :
  shape t = [L] -> wf t ->
  exists y, view t [-1; 1; 1; 1; 1]%Z = did OpView y /\
    Repr y [L; 1; 1; 1; 1]
      (fun idx => match idx with
                  | [l; _; _; _; _] => get t [l]
                  | _ => F64.nan
                  end).
Proof.
  intros Hs Hw. unfold view. rewrite Hs, infer_shape_per_batch.
  cbn [numel fold_right]. rewrite Nat.mul_1_r.
  eexists; split; [reflexivity|]. split; [reflexivity|]. split.
  - unfold wf in *. cbn [shape data]. rewrite Hw, Hs.
    cbn [numel fold_right]. lia.
  - intros idx Hr. split_idx Hr. unfold get. cbn [shape data]. rewrite Hs.
    f_equal. cbn [ravel numel fold_right]. nia.
Qed.

Lemma view_space_kernel (sk : Tensor) (kx ky : nat) :
  numel (shape sk) = ky * kx -> wf sk -> 0 < kx -> 0 < ky ->
  exists y,
    view sk [-1; 1; 1; 1; Z.of_nat kx * Z.of_nat ky]%Z = did OpView y /\
    Repr y [1; 1; 1; 1; kx * ky]
      (fun idx => match idx with
                  | [_; _; _; _; k] => nth k (data sk) F64.nan
                  | _ => F64.nan
                  end).
Proof.
  intros Hs Hw Hx Hy. unfold view.
  unfold infer_shape.
  assert (E : (Z.of_nat kx * Z.of_nat ky)%Z = Z.of_nat (kx * ky)) by lia.
  rewrite E. set (K := kx * ky) in *. assert (HK : 0 < K) by (subst K; nia).
  assert (Hlt : (Z.of_nat K <? -1)%Z = false) by (apply Z.ltb_ge; lia).
  assert (Hne : (Z.of_nat K =? -1)%Z = false) by (apply Z.eqb_neq; lia).
  cbn [existsb filter map]. rewrite Hlt.
  change ((-1 <? -1)%Z) with false. change ((1 <? -1)%Z) with false.
  change ((-1 =? -1)%Z) with true. change ((1 =? -1)%Z) with false.
  cbn [orb negb]. rewrite Hne. cbn [negb length map].
  rewrite Nat2Z.id. change (Z.to_nat 1) with 1.
  assert (Hn : numel (shape sk) = K) by (subst K; lia).
  assert (Hk : numel [1; 1; 1; K] = K) by (cbn [numel fold_right]; lia).
  rewrite Hn, Hk.
  replace (0 <? K) with true by (symmetry; now apply Nat.ltb_lt).
  rewrite Nat.Div0.mod_same. cbn [Nat.eqb andb].
  rewrite Nat.div_same by lia.
  eexists; split; [reflexivity|]. split; [reflexivity|]. split.
  - unfold wf in *. cbn [shape data]. rewrite Hw, Hn.
    cbn [numel fold_right]. lia.
  - intros idx Hr. split_idx Hr. unfold get. cbn [shape data].
    f_equal. cbn [ravel numel fold_right]. nia.
Qed.

Lemma broadcast_same_eq (a : nat) (s1 s2 : list nat) :
  broadcast_same (a :: s1) (a :: s2) =
  option_map (cons a) (broadcast_same s1 s2).
Proof. cbn [broadcast_same]. now rewrite Nat.eqb_refl. Qed.

Lemma broadcast_same_one_r (a : nat) (s1 s2 : list nat) :
  broadcast_same (a :: s1) (1 :: s2) =
  option_map (cons a) (broadcast_same s1 s2).
Proof. cbn [broadcast_same]. now rewrite orb_true_r. Qed.

Lemma broadcast_same_one_l (b : nat) (s1 s2 : list nat) :
  broadcast_same (1 :: s1) (b :: s2) =
  option_map (cons b) (broadcast_same s1 s2).
Proof.
  cbn [broadcast_same]. destruct (Nat.eqb_spec 1 b) as [<-|]; [reflexivity|].
  destruct (Nat.eqb_spec b 1); [lia | reflexivity].
Qed.

Lemma broadcast_same_differ (a b : nat) (s1 s2 : list nat) :
  a <> b -> a <> 1 -> b <> 1 -> broadcast_same (a :: s1) (b :: s2) = None.
Proof.
  intros Hab Ha Hb. cbn [broadcast_same].
  destruct (Nat.eqb_spec a b); [lia|].
  destruct (Nat.eqb_spec b 1); [lia|].
  destruct (Nat.eqb_spec a 1); [lia|]. reflexivity.
Qed.

(** ** The monad *)

Lemma bind_ok (A B : Type) (m : M A) (f : A -> M B) (tr : list Op) (a : A) :
  m = (tr, Ok a) -> bind m f = (tr ++ trace (f a), outcome (f a)).
Proof. intros ->. unfold bind, trace, outcome. now destruct (f a). Qed.

Lemma bind_raise (A B : Type) (m : M A) (f : A -> M B) (tr : list Op)
  (e : Exn) :
  m = (tr, Raise e) -> bind m f = (tr, Raise e).
Proof. now intros ->. Qed.

Lemma bind_ret (A B : Type) (a : A) (f : A -> M B) : bind (ret a) f = f a.
Proof. unfold bind, ret. now destruct (f a). Qed.

Lemma bind_did (A B : Type) (op : Op) (a : A) (f : A -> M B) :
  bind (did op a) f = (op :: trace (f a), outcome (f a)).
Proof. unfold bind, did, trace, outcome. now destruct (f a). Qed.

Lemma bind_ext (A B : Type) (m : M A) (f g : A -> M B) :
  (forall a, f a = g a) -> bind m f = bind m g.
Proof. intros H. destruct m as [tr [a | e]]; simpl; now rewrite ?H. Qed.

Lemma lift_ok (A : Type) (r : result A) (a : A) : r = Ok a -> lift r = ret a.
Proof. now intros ->. Qed.

Lemma lift_raise (A : Type) (r : result A) (e : Exn) :
  r = Raise e -> lift r = raise e.
Proof. now intros ->. Qed.

Lemma M_eta (A : Type) (m : M A) : m = (trace m, outcome m).
Proof. now destruct m. Qed.

(** ** Python scalars *)

Lemma sigma_float_ok (B : nat) (x : float) :
  sigma_color_ok B (SigmaFloat x) = true ->
  py_pow2 x = Ok (F64.mul x x) /\
  py_truediv F64.neg_half (F64.mul x x) =
  Ok (F64.div F64.neg_half (F64.mul x x)).
Proof.
  unfold sigma_color_ok, py_pow2, py_truediv.
  destruct (F64.is_finite x && F64.is_inf (F64.mul x x)); [discriminate|].
  intros H. apply negb_true_iff in H. now rewrite H.
Qed.

(** ** Kernel sizes *)

Lemma unpack_ok (ks : KernelSize) :
  kernel_ok ks = true -> _unpack_2d_ks ks = ret (ks_x ks, ks_y ks).
Proof.
  unfold kernel_ok, _unpack_2d_ks. destruct ks; simpl; now intros ->.
Qed.

Lemma unpack_rejects (ks : KernelSize) :
  kernel_ok ks = false -> _unpack_2d_ks ks = raise KernelSizeError.
Proof.
  unfold kernel_ok, _unpack_2d_ks. destruct ks; simpl; now intros ->.
Qed.

Lemma zero_padding_eq (ks : KernelSize) :
  _compute_zero_padding ks = (((ks_x ks - 1) / 2)%Z, ((ks_y ks - 1) / 2)%Z).
Proof. now destruct ks. Qed.

Lemma component_ok_size (k : Z) :
  kernel_component_ok k = true ->
  Z.to_nat k = 2 * Z.to_nat ((k - 1) / 2) + 1.
Proof.
  unfold kernel_component_ok. intros H. apply andb_prop in H as [Hp Ho].
  apply Z.ltb_lt in Hp. rewrite Z.odd_spec in Ho. destruct Ho as [q ->].
  replace ((2 * q + 1 - 1) / 2)%Z with q
    by (symmetry; replace (2 * q + 1 - 1)%Z with (q * 2)%Z by lia;
        apply Z.div_mul; lia).
  lia.
Qed.

Lemma kernel_ok_sizes (ks : KernelSize) :
  kernel_ok ks = true ->
  kx_of ks = 2 * pad_x_of ks + 1 /\ ky_of ks = 2 * pad_y_of ks + 1.
Proof.
  unfold kernel_ok. intros H. apply andb_prop in H as [Hx Hy].
  split; now apply component_ok_size.
Qed.

(* ================================================================== *)
(** ** Line 76 on windows and weights of matching shapes *)

Lemma weighted_average_ok (fsum : Reduction) (unfolded kernel : Tensor)
  (B C H W K : nat) (fu fk : list nat -> float) :
  Repr unfolded [B; C; H; W; K] fu -> Repr kernel [B; 1; H; W; K] fk ->
  exists out,
    weighted_average fsum unfolded kernel = (average_ops, Ok out) /\
    Repr out [B; C; H; W]
      (fun idx =>
         match idx with
         | [b; c; h; w] =>
             F64.div
               (fsum [B; C; H; W; K] 4
                  (map (fun k => F64.mul (fu [b; c; h; w; k])
                                   (fk [b; 0; h; w; k])) (seq 0 K)))
               (fsum [B; 1; H; W; K] 4
                  (map (fun k => fk [b; 0; h; w; k]) (seq 0 K)))
         | _ => F64.nan
         end).
Proof.
  intros Ru Rk.
  assert (Hb : broadcast_same [B; C; H; W; K] [B; 1; H; W; K] =
               Some [B; C; H; W; K]).
  { rewrite broadcast_same_eq, broadcast_same_one_r, !broadcast_same_eq.
    reflexivity. }
  destruct (broadcast_repr OpMul F64.mul Ru Rk eq_refl Hb) as (p & E1 & R1).
  destruct (sum_last fsum R1) as (num & E2 & R2).
  destruct (sum_last fsum Rk) as (den & E3 & R3).
  assert (Hd : broadcast_same [B; C; H; W] [B; 1; H; W] = Some [B; C; H; W]).
  { rewrite broadcast_same_eq, broadcast_same_one_r, !broadcast_same_eq.
    reflexivity. }
  destruct (broadcast_repr OpDiv F64.div R2 R3 eq_refl Hd)
    as (out & E4 & R4).
  exists out. split.
  - unfold weighted_average, tmul, tdiv.
    rewrite E1, bind_did, E2, bind_did, E3, bind_did, E4. reflexivity.
  - eapply Repr_ext; [exact R4|]. intros idx Hr. split_idx Hr.
    unmask. f_equal. f_equal. apply map_ext_in. intros k Hk.
    apply in_seq in Hk. destruct Hk as [_ Hk]. cbn [Nat.add] in Hk.
    unmask. reflexivity.
Qed.

(* ================================================================== *)
(** ** The stages of a call whose arguments pass every check *)

Section ValidCall.

Variable fexp : float -> float.
Variable fsum : Reduction.
Variable get_gaussian_kernel2d : KernelSize -> SigmaSpace -> result Tensor.

Variable input : Tensor.
Variables B C H W : nat.
Variable ks : KernelSize.
Variable border : string.
Variable m : PadMode.

Hypothesis input_shape : shape input = [B; C; H; W].
Hypothesis input_wf : wf input.
Hypothesis ks_ok : kernel_ok ks = true.
Hypothesis border_mode : parse_mode border = Some m.
Hypothesis border_fits : border_ok m ks C H W = true.
Hypothesis H_pos : 0 < H.
Hypothesis W_pos : 0 < W.

Let K : nat := ky_of ks * kx_of ks.

Lemma windows_ok :
  exists unfolded diff,
    windows input ks border =
    (windows_ops, Ok (ks_x ks, ks_y ks, unfolded, diff)) /\
    Repr unfolded [B; C; H; W; K] (on5 (neighborhood m input H W ks)) /\
    Repr diff [B; C; H; W; K] (on5 (channel_diff m input H W ks)).
Proof.
  destruct (kernel_ok_sizes ks ks_ok) as [Ekx Eky].
  pose proof (pad_ok input (pad_x_of ks) (pad_x_of ks) (pad_y_of ks)
                (pad_y_of ks) border input_shape border_mode border_fits)
    as Epad.
  set (padded := tabulate _ _) in Epad.
  assert (Rp : Repr padded
                 [B; C; pad_y_of ks + H + pad_y_of ks;
                  pad_x_of ks + W + pad_x_of ks]
                 (padded_image m input H W ks)) by apply Repr_tabulate.
  destruct (unfold_rows (ky := ky_of ks) Rp) as (u1 & E1 & R1); [lia|].
  replace (pad_y_of ks + H + pad_y_of ks - ky_of ks + 1) with H in R1 by lia.
  destruct (unfold_cols (kx := kx_of ks) R1) as (u2 & E2 & R2); [lia|].
  replace (pad_x_of ks + W + pad_x_of ks - kx_of ks + 1) with W in R2 by lia.
  destruct (flatten_windows R2) as (unfolded & E3 & R3); [lia|].
  destruct (unsqueeze_last input_shape input_wf) as (centre & E4 & R4).
  assert (Hb : broadcast_same [B; C; H; W; K] [B; C; H; W; 1] =
               Some [B; C; H; W; K]).
  { rewrite !broadcast_same_eq, broadcast_same_one_r. reflexivity. }
  destruct (broadcast_repr OpSub F64.sub R3 R4 eq_refl Hb)
    as (diff & E5 & R5).
  exists unfolded, diff. split; [|split].
  - unfold windows. rewrite (unpack_ok ks ks_ok), bind_ret.
    rewrite zero_padding_eq.
    fold (pad_x_of ks) (pad_y_of ks) (kx_of ks) (ky_of ks).
    rewrite Epad, bind_did, E1, bind_did, E2, bind_did, E3, bind_did.
    rewrite E4, bind_did. unfold tsub. rewrite E5, bind_did. reflexivity.
  - eapply Repr_ext; [exact R3|]. intros idx Hr. split_idx Hr. reflexivity.
  - eapply Repr_ext; [exact R5|]. intros idx Hr. split_idx Hr.
    unfold K in *. unmask. reflexivity.
Qed.

Lemma color_distance_ok (diff : Tensor) (cdt : string) :
  Repr diff [B; C; H; W; K] (on5 (channel_diff m input H W ks)) ->
  cdt = "l1"%string \/ cdt = "l2"%string ->
  exists d,
    color_distance fsum cdt diff = (distance_ops cdt, Ok d) /\
    Repr d [B; 1; H; W; K]
      (on5 (fun b _ h w k => distance fsum m input B C H W ks cdt b h w k)).
Proof.
  intros Rd [-> | ->]; unfold color_distance, distance_ops, distance.
  - change (("l1" =? "l1")%string) with true. cbv iota.
    pose proof (Repr_map F64.abs Rd) as Ra.
    destruct (sum_channels fsum Ra) as (s & E & Rs).
    pose proof (Repr_map F64.square Rs) as Rq.
    exists (map_tensor F64.square s). split.
    + unfold tabs, tsquare. rewrite bind_did, E, bind_did. reflexivity.
    + eapply Repr_ext; [exact Rq|]. intros idx Hr. split_idx Hr.
      reflexivity.
  - change (("l2" =? "l1")%string) with false.
    change (("l2" =? "l2")%string) with true. cbv iota.
    pose proof (Repr_map F64.square Rd) as Rq.
    destruct (sum_channels fsum Rq) as (s & E & Rs).
    exists s. split.
    + unfold tsquare. rewrite bind_did, E. reflexivity.
    + eapply Repr_ext; [exact Rs|]. intros idx Hr. split_idx Hr.
      reflexivity.
Qed.

Lemma prepare_ok (sigma : SigmaColor) :
  sigma_color_ok B sigma = true ->
  exists sigma',
    prepare_sigma_color sigma = (prepare_ops sigma, Ok sigma') /\
    prepared B sigma sigma'.
Proof.
  destruct sigma as [x | t]; intros Hok;
    unfold sigma_color_ok in Hok; unfold prepare_sigma_color, prepare_ops.
  - exists (SigmaFloat x). split; reflexivity.
  - destruct (shape t) as [|L [|? ?]] eqn:Hs; try discriminate.
    apply andb_prop in Hok as [HL Hw].
    apply Nat.eqb_eq in HL. subst L. apply Nat.eqb_eq in Hw.
    destruct (view_per_batch Hs Hw) as (t' & E & R).
    exists (SigmaTensor t'). split; [|exact R].
    unfold KORNIA_CHECK_SHAPE, to. rewrite Hs. cbn [length Nat.eqb].
    rewrite bind_ret, bind_did, E, bind_did. reflexivity.
Qed.

Lemma color_kernel_ok (sigma sigma' : SigmaColor) (d : Tensor)
  (fd : list nat -> float) :
  sigma_color_ok B sigma = true -> prepared B sigma sigma' ->
  Repr d [B; 1; H; W; K] fd ->
  exists ck,
    color_kernel fexp sigma' d = (color_kernel_ops sigma, Ok ck) /\
    Repr ck [B; 1; H; W; K]
      (on5 (fun b _ h w k =>
              fexp (F64.mul (sigma_coefficient sigma b) (fd [b; 0; h; w; k])))).
Proof.
  intros Hok Hp Rd.
  destruct sigma as [x | t], sigma' as [x' | t']; simpl in Hp;
    try contradiction.
  - subst x'. destruct (sigma_float_ok _ _ Hok) as [E1 E2].
    pose proof (Repr_map
                  (F64.mul (F64.div F64.neg_half (F64.mul x x))) Rd) as R1.
    pose proof (Repr_map fexp R1) as R2.
    exists (map_tensor fexp
              (map_tensor (F64.mul (F64.div F64.neg_half (F64.mul x x))) d)).
    split.
    + unfold color_kernel, texp.
      rewrite (lift_ok E1), bind_ret, (lift_ok E2), bind_ret, bind_did.
      reflexivity.
    + eapply Repr_ext; [exact R2|]. intros idx Hr. split_idx Hr.
      zero_unit. reflexivity.
  - pose proof (Repr_map F64.square Hp) as R1.
    pose proof (Repr_map (F64.div F64.one) R1) as R2.
    pose proof (Repr_map (fun y => F64.mul y F64.neg_half) R2) as R3.
    assert (Hb : broadcast_same [B; 1; 1; 1; 1] [B; 1; H; W; K] =
                 Some [B; 1; H; W; K]).
    { rewrite !broadcast_same_eq, !broadcast_same_one_l. reflexivity. }
    destruct (broadcast_repr OpMul F64.mul R3 Rd eq_refl Hb)
      as (sc & E & R4).
    pose proof (Repr_map fexp R4) as R5.
    exists (map_tensor fexp sc). split.
    + unfold color_kernel, treciprocal, tmul, texp.
      rewrite !bind_did, E. reflexivity.
    + eapply Repr_ext; [exact R5|]. intros idx Hr. split_idx Hr.
      unfold K in *. unmask. zero_unit. reflexivity.
Qed.

Section SpatialKernel.

Variable sigma_space : SigmaSpace.
Variable sk : Tensor.

Hypothesis sk_built : get_gaussian_kernel2d ks sigma_space = Ok sk.
Hypothesis sk_size : numel (shape sk) = ky_of ks * kx_of ks.
Hypothesis sk_wf : wf sk.

Lemma space_kernel_ok :
  exists y,
    space_kernel get_gaussian_kernel2d ks sigma_space (ks_x ks) (ks_y ks) =
    (space_kernel_ops, Ok y) /\
    Repr y [1; 1; 1; 1; K]
      (on5 (fun _ _ _ _ k => nth k (data sk) F64.nan)).
Proof.
  destruct (kernel_ok_sizes ks ks_ok) as [Ekx Eky].
  destruct (@view_space_kernel sk (kx_of ks) (ky_of ks)) as (y & E & R);
    try assumption; try lia.
  unfold kx_of, ky_of in E.
  assert (Hx : (0 <= ks_x ks)%Z) by (unfold kx_of in Ekx; lia).
  assert (Hy : (0 <= ks_y ks)%Z) by (unfold ky_of in Eky; lia).
  rewrite !Z2Nat.id in E by assumption.
  exists y. split.
  - unfold space_kernel, lift. rewrite sk_built.
    fold (@ret Tensor sk). rewrite bind_ret, bind_did, E. reflexivity.
  - unfold K. rewrite Nat.mul_comm.
    eapply Repr_ext; [exact R|]. intros idx Hr. split_idx Hr. reflexivity.
Qed.

Variable sigma : SigmaColor.
Variable cdt : string.

Hypothesis sigma_ok : sigma_color_ok B sigma = true.
Hypothesis cdt_ok : cdt = "l1"%string \/ cdt = "l2"%string.

Lemma check_input_ok :
  KORNIA_CHECK_SHAPE input ["B"; "C"; "H"; "W"]%string = ret tt.
Proof. unfold KORNIA_CHECK_SHAPE. now rewrite input_shape. Qed.

(** A call whose arguments pass every check returns, having carried out
    [success_ops], a tensor of the input's shape whose pixels are
    [output_pixel]. *)
Lemma bilateral_blur_ok :
  exists out,
    bilateral_blur fexp fsum get_gaussian_kernel2d input ks sigma sigma_space
      border cdt = (success_ops sigma cdt, Ok out) /\
    Repr out [B; C; H; W]
      (fun idx =>
         match idx with
         | [b; c; h; w] =>
             output_pixel fexp fsum m input B C H W ks sk sigma cdt b c h w
         | _ => F64.nan
         end).
Proof.
  destruct (@prepare_ok sigma sigma_ok) as (sigma' & Ep & Hp).
  destruct windows_ok as (unfolded & diff & Ew & Ru & Rd).
  destruct (@color_distance_ok diff cdt Rd cdt_ok) as (d & Ed & Rdist).
  destruct (@color_kernel_ok sigma sigma' d _ sigma_ok Hp Rdist)
    as (ck & Eck & Rck).
  destruct space_kernel_ok as (spk & Es & Rs).
  assert (Hb : broadcast_same [1; 1; 1; 1; K] [B; 1; H; W; K] =
               Some [B; 1; H; W; K]).
  { rewrite !broadcast_same_one_l, broadcast_same_eq. reflexivity. }
  destruct (broadcast_repr OpMul F64.mul Rs Rck eq_refl Hb)
    as (kernel & Ek & Rk).
  assert (Rk' : Repr kernel [B; 1; H; W; K]
                  (on5 (fun b _ h w k =>
                          combined_weight fexp fsum m input B C H W ks sk
                            sigma cdt b h w k))).
  { eapply Repr_ext; [exact Rk|]. intros idx Hr. split_idx Hr.
    unfold K in *. unmask. zero_unit. reflexivity. }
  destruct (weighted_average_ok fsum Ru Rk') as (out & Eo & Ro).
  exists out. split.
  - unfold bilateral_blur. rewrite check_input_ok, bind_ret.
    rewrite (bind_ok _ Ep). cbv beta.
    rewrite (bind_ok _ Ew). cbv beta iota zeta.
    rewrite (bind_ok _ Ed). cbv beta.
    rewrite (bind_ok _ Eck). cbv beta.
    rewrite (bind_ok _ Es). cbv beta.
    unfold tmul. rewrite Ek, bind_did, Eo. reflexivity.
  - eapply Repr_ext; [exact Ro|]. intros idx Hr. split_idx Hr.
    reflexivity.
Qed.

End SpatialKernel.

End ValidCall.

(* ================================================================== *)
(** ** Valid calls *)

Lemma valid_call_runs (fexp : float -> float)
  (fsum : Reduction) (builder : KernelSize -> SigmaSpace -> result Tensor)
  (input : Tensor) (B C H W : nat) (ks : KernelSize) (sigma : SigmaColor)
  (ss : SigmaSpace) (border : string) (m : PadMode) (cdt : string)
  (sk : Tensor) :
  valid_call builder input B C H W ks sigma ss border m cdt sk ->
  exists out,
    bilateral_blur fexp fsum builder input ks sigma ss border cdt =
    (success_ops sigma cdt, Ok out) /\
    Repr out [B; C; H; W]
      (fun idx =>
         match idx with
         | [b; c; h; w] =>
             output_pixel fexp fsum m input B C H W ks sk sigma cdt b c h w
         | _ => F64.nan
         end).
Proof.
  intros []. eapply bilateral_blur_ok; eassumption.
Qed.

(** C7.  For every valid call, bilateral_blur returns a tensor whose shape
    is the shape (B,C,H,W) of the input. *)
Theorem C7_output_shape (fexp : float -> float)
  (fsum : Reduction) (builder : KernelSize -> SigmaSpace -> result Tensor)
  (input : Tensor) (B C H W : nat) (ks : KernelSize) (sigma : SigmaColor)
  (ss : SigmaSpace) (border : string) (m : PadMode) (cdt : string)
  (sk : Tensor) :
  valid_call builder input B C H W ks sigma ss border m cdt sk ->
  exists out,
    outcome (bilateral_blur fexp fsum builder input ks sigma ss border cdt) =
    Ok out /\
    shape out = [B; C; H; W] /\ shape out = shape input /\ wf out.
Proof.
  intros V. destruct (valid_call_runs fexp fsum V) as (out & E & Hs & Hw & _).
  exists out. rewrite E. repeat split; auto.
  destruct V. congruence.
Qed.

(** C4.  For every valid call on a float64 image, each output pixel is the
    weighted sum of the kx * ky samples of its window divided by the sum of
    the weights, the weight of sample k at (b,h,w) being the spatial kernel
    weight for offset k times exp (-0.5 / sigma_color(b)^2 *
    distance(b,h,w,k)).  The two sums are the ones torch's [sum] forms over
    the last dimension of the weighted windows, of shape (B,C,H,W,K), and
    of the weights, of shape (B,1,H,W,K), whatever the order in which it
    adds. *)
Theorem C4_normalized_weighted_sum (fexp : float -> float)
  (fsum : Reduction) (builder : KernelSize -> SigmaSpace -> result Tensor)
  (input : Tensor) (B C H W : nat) (ks : KernelSize) (sigma : SigmaColor)
  (ss : SigmaSpace) (border : string) (m : PadMode) (cdt : string)
  (sk : Tensor) :
  valid_call builder input B C H W ks sigma ss border m cdt sk ->
  let weight b h w k :=
    F64.mul (nth k (data sk) F64.nan)
      (fexp (F64.mul (sigma_coefficient sigma b)
               (distance fsum m input B C H W ks cdt b h w k))) in
  let window := seq 0 (ky_of ks * kx_of ks) in
  exists out,
    outcome (bilateral_blur fexp fsum builder input ks sigma ss border cdt) =
    Ok out /\
    forall b c h w, b < B -> c < C -> h < H -> w < W ->
      get out [b; c; h; w] =
      F64.div
        (fsum (windows_shape B C H W ks) 4
           (map (fun k => F64.mul (neighborhood m input H W ks b c h w k)
                            (weight b h w k)) window))
        (fsum (weights_shape B H W ks) 4
           (map (fun k => weight b h w k) window)).
Proof.
  intros V weight window.
  destruct (valid_call_runs fexp fsum V) as (out & E & R).
  exists out. rewrite E. split; [reflexivity|].
  intros b c h w Hb Hc Hh Hw.
  rewrite (Repr_get [b; c; h; w] R) by (simpl; auto).
  reflexivity.
Qed.

Lemma ex_valid :
  valid_call gaussian_kernel2d ex_image 1 1 2 2 (KsInt 3)
    (SigmaFloat F64.one) ex_sigma_space "reflect" Reflect "l1" ex_kernel.
Proof.
  constructor; try reflexivity; try lia.
  left; reflexivity.
Defined.

Lemma C7_output_shape_witness :
  exists out,
    outcome (bilateral_blur_f64 ex_image (KsInt 3) (SigmaFloat F64.one)
               ex_sigma_space "reflect" "l1") = Ok out /\
    shape out = [1; 1; 2; 2] /\ shape out = shape ex_image /\ wf out.
Proof. exact (C7_output_shape Libm.exp sum_in_lanes ex_valid). Defined.

(** C5.  For every valid call on a float64 image and every window sample,
    with d_c = neighborhood sample - centre pixel the difference in channel
    c, the colour distance is (sum over c of |d_c|) squared for "l1" and the
    sum over c of d_c squared for "l2".  The sums are the ones torch's [sum]
    forms over dimension 1 of a tensor of shape (B,C,H,W,K), whatever the
    order in which it adds. *)
Theorem C5_color_distance (fsum : Reduction)
  (builder : KernelSize -> SigmaSpace -> result Tensor)
  (input : Tensor) (B C H W : nat) (ks : KernelSize) (sigma : SigmaColor)
  (ss : SigmaSpace) (border : string) (m : PadMode) (cdt : string)
  (sk : Tensor) :
  valid_call builder input B C H W ks sigma ss border m cdt sk ->
  let K := ky_of ks * kx_of ks in
  exists unfolded diff,
    outcome (windows input ks border) =
    Ok (ks_x ks, ks_y ks, unfolded, diff) /\
    (forall b c h w k, b < B -> c < C -> h < H -> w < W -> k < K ->
       get unfolded [b; c; h; w; k] = neighborhood m input H W ks b c h w k /\
       get diff [b; c; h; w; k] =
       F64.sub (get unfolded [b; c; h; w; k]) (get input [b; c; h; w])) /\
    (exists d1,
       outcome (color_distance fsum "l1" diff) = Ok d1 /\
       forall b h w k, b < B -> h < H -> w < W -> k < K ->
         get d1 [b; 0; h; w; k] =
         F64.square
           (fsum [B; C; H; W; K] 1
              (map (fun c => F64.abs (get diff [b; c; h; w; k])) (seq 0 C)))) /\
    (exists d2,
       outcome (color_distance fsum "l2" diff) = Ok d2 /\
       forall b h w k, b < B -> h < H -> w < W -> k < K ->
         get d2 [b; 0; h; w; k] =
         fsum [B; C; H; W; K] 1
           (map (fun c => F64.square (get diff [b; c; h; w; k])) (seq 0 C))).
Proof.
  intros V K. destruct V.
  destruct (@windows_ok input B C H W ks border m valid_shape0 valid_wf0
              valid_kernel0 valid_mode0 valid_border0 valid_H0 valid_W0)
    as (unfolded & diff & Ew & Ru & Rd).
  assert (Hd : forall b c h w k,
             b < B -> c < C -> h < H -> w < W -> k < K ->
             get diff [b; c; h; w; k] = channel_diff m input H W ks b c h w k).
  { intros. rewrite (Repr_get [b; c; h; w; k] Rd) by range.
    reflexivity. }
  assert (Hu : forall b c h w k,
             b < B -> c < C -> h < H -> w < W -> k < K ->
             get unfolded [b; c; h; w; k] =
             neighborhood m input H W ks b c h w k).
  { intros. rewrite (Repr_get [b; c; h; w; k] Ru) by range.
    reflexivity. }
  exists unfolded, diff. rewrite Ew. split; [reflexivity|]. split; [|split].
  - intros b c h w k Hb Hc Hh Hw Hk. split; [now apply Hu|].
    rewrite Hd, Hu by assumption. reflexivity.
  - destruct (@color_distance_ok fsum input B C H W ks m diff "l1" Rd
                (or_introl eq_refl)) as (d & E & R).
    exists d. rewrite E. split; [reflexivity|].
    intros b h w k Hb Hh Hw Hk.
    rewrite (Repr_get [b; 0; h; w; k] R) by range.
    cbn [on5]. unfold distance.
    change (("l1" =? "l1")%string) with true. cbv iota.
    unfold distance_l1. f_equal. f_equal. apply map_ext_in.
    intros c Hc. apply in_seq in Hc. rewrite Hd by (auto; lia).
    reflexivity.
  - destruct (@color_distance_ok fsum input B C H W ks m diff "l2" Rd
                (or_intror eq_refl)) as (d & E & R).
    exists d. rewrite E. split; [reflexivity|].
    intros b h w k Hb Hh Hw Hk.
    rewrite (Repr_get [b; 0; h; w; k] R) by range.
    cbn [on5]. unfold distance.
    change (("l2" =? "l1")%string) with false. cbv iota.
    unfold distance_l2. f_equal. apply map_ext_in.
    intros c Hc. apply in_seq in Hc. rewrite Hd by (auto; lia).
    reflexivity.
Qed.

Lemma ex_color_valid :
  valid_call gaussian_kernel2d ex_color_image 1 3 2 2 (KsInt 3)
    (SigmaFloat F64.one) ex_sigma_space "reflect" Reflect "l1" ex_kernel.
Proof.
  constructor; try reflexivity; try lia.
  left; reflexivity.
Defined.

Lemma C5_color_distance_witness :
  exists unfolded diff,
    outcome (windows ex_color_image (KsInt 3) "reflect") =
    Ok (3%Z, 3%Z, unfolded, diff) /\
    (forall b c h w k, b < 1 -> c < 3 -> h < 2 -> w < 2 -> k < 9 ->
       get unfolded [b; c; h; w; k] =
       neighborhood Reflect ex_color_image 2 2 (KsInt 3) b c h w k /\
       get diff [b; c; h; w; k] =
       F64.sub (get unfolded [b; c; h; w; k])
         (get ex_color_image [b; c; h; w])) /\
    (exists d1,
       outcome (color_distance sum_in_lanes "l1" diff) = Ok d1 /\
       forall b h w k, b < 1 -> h < 2 -> w < 2 -> k < 9 ->
         get d1 [b; 0; h; w; k] =
         F64.square
           (sum_in_lanes [1; 3; 2; 2; 9] 1
              (map (fun c => F64.abs (get diff [b; c; h; w; k])) (seq 0 3)))) /\
    (exists d2,
       outcome (color_distance sum_in_lanes "l2" diff) = Ok d2 /\
       forall b h w k, b < 1 -> h < 2 -> w < 2 -> k < 9 ->
         get d2 [b; 0; h; w; k] =
         sum_in_lanes [1; 3; 2; 2; 9] 1
           (map (fun c => F64.square (get diff [b; c; h; w; k])) (seq 0 3))).
Proof. exact (C5_color_distance sum_in_lanes ex_color_valid). Defined.

Lemma C4_normalized_weighted_sum_witness :
  exists out,
    outcome (bilateral_blur_f64 ex_image (KsInt 3) (SigmaFloat F64.one)
               ex_sigma_space "reflect" "l1") = Ok out /\
    forall b c h w, b < 1 -> c < 1 -> h < 2 -> w < 2 ->
      get out [b; c; h; w] =
      output_pixel Libm.exp sum_in_lanes Reflect ex_image 1 1 2 2 (KsInt 3)
        ex_kernel (SigmaFloat F64.one) "l1" b c h w.
Proof.
  exact (C4_normalized_weighted_sum Libm.exp sum_in_lanes ex_valid).
Defined.

(** C8.  A BilateralBlur object stores the five values of its
    configuration, and applying it to an image gives exactly what
    bilateral_blur gives for that image and that configuration. *)
Theorem C8_forward_is_bilateral_blur (fexp : float -> float)
  (fsum : Reduction) (builder : KernelSize -> SigmaSpace -> result Tensor)
  (ks : KernelSize) (sigma : SigmaColor) (ss : SigmaSpace)
  (border cdt : string) (input : Tensor) :
  let self := __init__ ks sigma ss border cdt in
  (kernel_size self, sigma_color self, sigma_space self, border_type self,
   color_distance_type self) = (ks, sigma, ss, border, cdt) /\
  forward fexp fsum builder self input =
  bilateral_blur fexp fsum builder input ks sigma ss border cdt.
Proof.
  intros self. split.
  - unfold self, __init__. reflexivity.
  - unfold forward, self, __init__. reflexivity.
Qed.

(* ================================================================== *)
(** ** Rejected calls *)

Lemma outcome_bind_raises (A B : Type) (m : M A) (f : A -> M B) :
  (forall a, exists e, outcome (f a) = Raise e) ->
  exists e, outcome (bind m f) = Raise e.
Proof.
  intros Hf. destruct m as [tr [a | e]]; simpl.
  - destruct (Hf a) as [e He]. exists e.
    unfold outcome in *. destruct (f a). assumption.
  - now exists e.
Qed.

Lemma outcome_bind_validation (A B : Type) (m : M A) (f : A -> M B) :
  (forall e, outcome m = Raise e -> is_validation_error e = true) ->
  (forall a, exists e,
      outcome (f a) = Raise e /\ is_validation_error e = true) ->
  exists e, outcome (bind m f) = Raise e /\ is_validation_error e = true.
Proof.
  intros Hm Hf. destruct m as [tr [a | e]]; simpl.
  - destruct (Hf a) as (e & He & Hv). exists e.
    unfold outcome in *. destruct (f a). auto.
  - exists e. split; [reflexivity|]. now apply Hm.
Qed.

Lemma view_per_batch_eq (t : Tensor) (L : nat) :
  shape t = [L] ->
  view t [-1; 1; 1; 1; 1]%Z =
  did OpView (mkTensor [L; 1; 1; 1; 1] (data t)).
Proof.
  intros Hs. unfold view. rewrite Hs, infer_shape_per_batch.
  cbn [numel fold_right]. now rewrite Nat.mul_1_r.
Qed.

Lemma prepare_checked (sigma : SigmaColor) :
  sigma_color_checked sigma = true ->
  exists sigma',
    prepare_sigma_color sigma = (prepare_ops sigma, Ok sigma') /\
    match sigma, sigma' with
    | SigmaFloat x, SigmaFloat x' => x' = x
    | SigmaTensor t, SigmaTensor t' =>
        exists L, shape t = [L] /\ t' = mkTensor [L; 1; 1; 1; 1] (data t)
    | _, _ => False
    end.
Proof.
  destruct sigma as [x | t]; unfold sigma_color_checked; intros Hc.
  - exists (SigmaFloat x). split; reflexivity.
  - destruct (shape t) as [|L [|? ?]] eqn:Hs; try discriminate.
    exists (SigmaTensor (mkTensor [L; 1; 1; 1; 1] (data t))). split.
    + unfold prepare_sigma_color, KORNIA_CHECK_SHAPE, to. rewrite Hs.
      cbn [length Nat.eqb]. rewrite bind_ret, bind_did.
      rewrite (view_per_batch_eq t Hs), bind_did. reflexivity.
    + exists L. auto.
Qed.

Lemma prepare_unchecked (sigma : SigmaColor) :
  sigma_color_checked sigma = false ->
  prepare_sigma_color sigma = ([], Raise TypeError).
Proof.
  destruct sigma as [x | t]; unfold sigma_color_checked; intros Hc.
  - discriminate.
  - unfold prepare_sigma_color, KORNIA_CHECK_SHAPE.
    change (length ["B"%string]) with 1. now rewrite Hc.
Qed.

Lemma prepare_raises_validation (sigma : SigmaColor) (e : Exn) :
  outcome (prepare_sigma_color sigma) = Raise e ->
  is_validation_error e = true.
Proof.
  destruct (sigma_color_checked sigma) eqn:Hc.
  - destruct (prepare_checked sigma Hc) as (s' & E & _). rewrite E.
    discriminate.
  - rewrite (prepare_unchecked sigma Hc). now intros [= <-].
Qed.

Lemma check_shape_raises_validation (x : Tensor) (names : list string)
  (e : Exn) :
  outcome (KORNIA_CHECK_SHAPE x names) = Raise e ->
  is_validation_error e = true.
Proof.
  unfold KORNIA_CHECK_SHAPE.
  destruct (length (shape x) =? length names); [discriminate|].
  now intros [= <-].
Qed.

Lemma bad_component_not_ok (k : Z) :
  bad_component k -> kernel_component_ok k = false.
Proof.
  unfold bad_component, kernel_component_ok. intros [He | Hn].
  - rewrite <- Z.negb_even, He. apply andb_false_r.
  - replace (0 <? k)%Z with false; [reflexivity|].
    symmetry. apply Z.ltb_ge. exact Hn.
Qed.

Lemma windows_rejects (input : Tensor) (ks : KernelSize) (border : string) :
  kernel_ok ks = false ->
  windows input ks border = ([], Raise KernelSizeError).
Proof. intros H. unfold windows. now rewrite (unpack_rejects ks H). Qed.

(** C9.  (The kernel size check is part of kornia's helpers, modelled from
    the spec.)  For every call whose kernel size has an even or a
    non-positive component, bilateral_blur raises a validation error. *)
Theorem C9_bad_kernel_size_rejected (fexp : float -> float)
  (fsum : Reduction) (builder : KernelSize -> SigmaSpace -> result Tensor)
  (input : Tensor) (ks : KernelSize) (sigma : SigmaColor) (ss : SigmaSpace)
  (border cdt : string) :
  bad_component (ks_x ks) \/ bad_component (ks_y ks) ->
  exists e,
    outcome (bilateral_blur fexp fsum builder input ks sigma ss border cdt) =
    Raise e /\
    is_validation_error e = true.
Proof.
  intros Hbad.
  assert (Hk : kernel_ok ks = false).
  { unfold kernel_ok. destruct Hbad as [H | H];
      rewrite (bad_component_not_ok H); [reflexivity | apply andb_false_r]. }
  unfold bilateral_blur.
  apply outcome_bind_validation; [apply check_shape_raises_validation|].
  intros _.
  apply outcome_bind_validation; [apply prepare_raises_validation|].
  intros sigma'. rewrite (windows_rejects input ks border Hk).
  exists KernelSizeError. split; reflexivity.
Qed.

Lemma C9_bad_kernel_size_rejected_witness :
  exists e,
    outcome (bilateral_blur_f64 ex_image (KsPair 3 2) (SigmaFloat F64.one)
               ex_sigma_space "reflect" "l1") = Raise e /\
    is_validation_error e = true.
Proof.
  apply (C9_bad_kernel_size_rejected Libm.exp sum_in_lanes gaussian_kernel2d
           ex_image (KsPair 3 2) (SigmaFloat F64.one) ex_sigma_space
           "reflect" "l1").
  right. left. reflexivity.
Defined.

Lemma color_distance_rejects (fsum : Reduction) (cdt : string)
  (diff : Tensor) :
  (cdt =? "l1")%string = false -> (cdt =? "l2")%string = false ->
  color_distance fsum cdt diff = ([], Raise ValueError).
Proof. intros H1 H2. unfold color_distance. now rewrite H1, H2. Qed.

(** C1, as the code has it.  A call with a color_distance_type other than
    "l1" and "l2" never returns.  When the image is 4-D and the kernel size,
    the padding and sigma_color pass their checks, what is raised is the
    ValueError of line 69, and it is raised after the padding, the window
    extraction and the difference to the centre pixel were computed, before
    any distance, weight or averaging operation. *)
Theorem C1_unknown_distance_rejected_after_windows (fexp : float -> float)
  (fsum : Reduction) (builder : KernelSize -> SigmaSpace -> result Tensor)
  (input : Tensor) (ks : KernelSize) (sigma : SigmaColor) (ss : SigmaSpace)
  (border cdt : string) :
  (cdt =? "l1")%string = false -> (cdt =? "l2")%string = false ->
  (exists e,
     outcome (bilateral_blur fexp fsum builder input ks sigma ss border cdt) =
     Raise e) /\
  (forall B C H W m,
     shape input = [B; C; H; W] -> wf input -> 0 < H -> 0 < W ->
     kernel_ok ks = true -> parse_mode border = Some m ->
     border_ok m ks C H W = true -> sigma_color_checked sigma = true ->
     bilateral_blur fexp fsum builder input ks sigma ss border cdt =
     (prepare_ops sigma ++
      [OpPad; OpUnfold; OpUnfold; OpFlatten; OpUnsqueeze; OpSub],
      Raise ValueError)).
Proof.
  intros H1 H2. split.
  - unfold bilateral_blur.
    apply outcome_bind_raises. intros _.
    apply outcome_bind_raises. intros sigma'.
    apply outcome_bind_raises. intros [[[kx ky] unfolded] diff].
    rewrite (@color_distance_rejects fsum cdt diff H1 H2).
    exists ValueError. reflexivity.
  - intros B C H W m Hs Hwf HH HW Hk Hm Hb Hc.
    destruct (prepare_checked sigma Hc) as (sigma' & Ep & _).
    destruct (@windows_ok input B C H W ks border m Hs Hwf Hk Hm Hb HH HW)
      as (unfolded & diff & Ew & _).
    unfold bilateral_blur.
    rewrite (@check_input_ok input B C H W Hs), bind_ret.
    rewrite (bind_ok _ Ep). cbv beta.
    rewrite (bind_ok _ Ew). cbv beta iota zeta.
    rewrite (@color_distance_rejects fsum cdt diff H1 H2). reflexivity.
Qed.

Lemma C1_unknown_distance_rejected_after_windows_witness :
  (exists e,
     outcome (bilateral_blur_f64 ex_image (KsInt 3) (SigmaFloat F64.one)
                ex_sigma_space "reflect" "l3") = Raise e) /\
  bilateral_blur_f64 ex_image (KsInt 3) (SigmaFloat F64.one)
    ex_sigma_space "reflect" "l3" =
  ([OpPad; OpUnfold; OpUnfold; OpFlatten; OpUnsqueeze; OpSub],
   Raise ValueError).
Proof.
  destruct (C1_unknown_distance_rejected_after_windows Libm.exp
              sum_in_lanes gaussian_kernel2d ex_image (KsInt 3)
              (SigmaFloat F64.one) ex_sigma_space "reflect" "l3" eq_refl
              eq_refl) as [Hr Hv].
  split; [exact Hr|].
  apply (Hv 1 1 2 2 Reflect); try reflexivity; lia.
Defined.

(** C1 as stated fails: this call is rejected only after the image was
    padded, the windows extracted and the differences computed. *)
Lemma C1_counterexample :
  ("l3" =? "l1")%string = false /\ ("l3" =? "l2")%string = false /\
  bilateral_blur_f64 ex_image (KsInt 3) (SigmaFloat F64.one)
    ex_sigma_space "reflect" "l3" =
  ([OpPad; OpUnfold; OpUnfold; OpFlatten; OpUnsqueeze; OpSub],
   Raise ValueError) /\
  trace (bilateral_blur_f64 ex_image (KsInt 3) (SigmaFloat F64.one)
           ex_sigma_space "reflect" "l3") <> [].
Proof.
  split; [reflexivity|]. split; [reflexivity|].
  split; [vm_compute; reflexivity|]. vm_compute. discriminate.
Qed.

(* ================================================================== *)
(** ** sigma_color *)

Lemma shape_map_tensor (g : float -> float) (t : Tensor) :
  shape (map_tensor g t) = shape t.
Proof. reflexivity. Qed.

(** C2, as the code has it.  A sigma_color vector of a length L other than
    the batch size B passes the shape check, which only asks for one
    dimension.  When moreover L and B both differ from 1 and the other
    arguments are valid, the call fails with a RuntimeError, which is not a
    validation error, when the colour weights are formed: after the padding,
    the window extraction, the differences and the colour distances. *)
Theorem C2_sigma_length_mismatch_fails_in_broadcast (fexp : float -> float)
  (fsum : Reduction) (builder : KernelSize -> SigmaSpace -> result Tensor)
  (input : Tensor) (B C H W : nat) (ks : KernelSize) (t : Tensor) (L : nat)
  (ss : SigmaSpace) (border : string) (m : PadMode) (cdt : string) :
  shape input = [B; C; H; W] -> wf input -> 0 < H -> 0 < W ->
  kernel_ok ks = true -> parse_mode border = Some m ->
  border_ok m ks C H W = true ->
  cdt = "l1"%string \/ cdt = "l2"%string ->
  shape t = [L] -> L <> B -> L <> 1 -> B <> 1 ->
  KORNIA_CHECK_SHAPE t ["B"%string] = ([], Ok tt) /\
  bilateral_blur fexp fsum builder input ks (SigmaTensor t) ss border cdt =
  ([OpTo; OpView] ++
   [OpPad; OpUnfold; OpUnfold; OpFlatten; OpUnsqueeze; OpSub] ++
   distance_ops cdt ++ [OpPow; OpReciprocal; OpMul],
   Raise RuntimeError) /\
  is_validation_error RuntimeError = false.
Proof.
  intros Hs Hwf HH HW Hk Hm Hb Hc Ht HLB HL1 HB1.
  split; [|split; [|reflexivity]].
  { unfold KORNIA_CHECK_SHAPE. now rewrite Ht. }
  assert (Hchk : sigma_color_checked (SigmaTensor t) = true)
    by (unfold sigma_color_checked; now rewrite Ht).
  destruct (prepare_checked (SigmaTensor t) Hchk) as (sigma' & Ep & Hp).
  destruct sigma' as [? | t']; [contradiction|].
  destruct Hp as (L' & Ht' & ->). rewrite Ht in Ht'. injection Ht' as <-.
  destruct (@windows_ok input B C H W ks border m Hs Hwf Hk Hm Hb HH HW)
    as (unfolded & diff & Ew & _ & Rd).
  destruct (@color_distance_ok fsum input B C H W ks m diff cdt Rd Hc)
    as (d & Ed & Rdist).
  unfold bilateral_blur.
  rewrite (@check_input_ok input B C H W Hs), bind_ret.
  rewrite (bind_ok _ Ep). cbv beta.
  rewrite (bind_ok _ Ew). cbv beta iota zeta.
  rewrite (bind_ok _ Ed). cbv beta.
  unfold color_kernel, treciprocal, tmul. rewrite !bind_did.
  rewrite broadcast_fails.
  - reflexivity.
  - rewrite !shape_map_tensor, (Repr_shape Rdist). reflexivity.
  - rewrite !shape_map_tensor, (Repr_shape Rdist). cbn [shape].
    now apply broadcast_same_differ.
Qed.

Lemma C2_sigma_length_mismatch_fails_in_broadcast_witness :
  KORNIA_CHECK_SHAPE ex_sigma3 ["B"%string] = ([], Ok tt) /\
  bilateral_blur_f64 ex_batch (KsInt 1) (SigmaTensor ex_sigma3)
    ex_sigma_space "reflect" "l1" =
  ([OpTo; OpView; OpPad; OpUnfold; OpUnfold; OpFlatten; OpUnsqueeze; OpSub;
    OpAbs; OpSum; OpSquare; OpPow; OpReciprocal; OpMul],
   Raise RuntimeError) /\
  is_validation_error RuntimeError = false.
Proof.
  apply (@C2_sigma_length_mismatch_fails_in_broadcast Libm.exp
           sum_in_lanes gaussian_kernel2d ex_batch 2 1 1 1 (KsInt 1) ex_sigma3 3
           ex_sigma_space "reflect" Reflect "l1");
    try reflexivity; try lia.
  left; reflexivity.
Defined.

(** C2 as stated fails: a sigma_color vector of length 1 is accepted for a
    batch of two images and the call returns; a vector of length 3 is
    rejected only by the broadcasting of the colour weights, after the
    windows and the distances were computed. *)
Lemma C2_counterexample :
  shape ex_batch = [2; 1; 1; 1] /\ shape ex_sigma1 = [1] /\
  bilateral_blur_f64 ex_batch (KsInt 1) (SigmaTensor ex_sigma1)
    ex_sigma_space "reflect" "l1" =
  (success_ops (SigmaTensor ex_sigma1) "l1", Ok ex_batch) /\
  shape ex_sigma3 = [3] /\
  bilateral_blur_f64 ex_batch (KsInt 1) (SigmaTensor ex_sigma3)
    ex_sigma_space "reflect" "l1" =
  ([OpTo; OpView; OpPad; OpUnfold; OpUnfold; OpFlatten; OpUnsqueeze; OpSub;
    OpAbs; OpSum; OpSquare; OpPow; OpReciprocal; OpMul],
   Raise RuntimeError).
Proof. repeat split; vm_compute; reflexivity. Qed.

Lemma mul_opp_opp (x : float) : F64.mul (F64.opp x) (F64.opp x) = F64.mul x x.
Proof. destruct x as [[|] | [|] | | [|] m e]; reflexivity. Qed.

Lemma is_finite_opp (x : float) : F64.is_finite (F64.opp x) = F64.is_finite x.
Proof. now destruct x. Qed.

Lemma py_pow2_opp (x : float) : py_pow2 (F64.opp x) = py_pow2 x.
Proof. unfold py_pow2. now rewrite mul_opp_opp, is_finite_opp. Qed.

Lemma py_pow2_zero (x : float) :
  F64.is_zero (F64.mul x x) = true -> py_pow2 x = Ok (F64.mul x x).
Proof.
  unfold py_pow2. intros H.
  destruct (F64.mul x x); try discriminate.
  now rewrite andb_false_r.
Qed.

(** C10, as the code has it.  sigma_color is not checked for positivity.  A
    negative Python float gives what its absolute value gives.  With a
    Python float that is zero, or whose square underflows to zero, an
    otherwise valid call raises ZeroDivisionError, which is not a validation
    error, when line 70 forms -0.5 / sigma_color**2: after the colour
    distances were computed, and nothing is returned. *)
Theorem C10_scalar_sigma_zero_division (fexp : float -> float)
  (fsum : Reduction) (builder : KernelSize -> SigmaSpace -> result Tensor)
  (input : Tensor) (B C H W : nat) (ks : KernelSize) (x : float)
  (ss : SigmaSpace) (border : string) (m : PadMode) (cdt : string) :
  shape input = [B; C; H; W] -> wf input -> 0 < H -> 0 < W ->
  kernel_ok ks = true -> parse_mode border = Some m ->
  border_ok m ks C H W = true ->
  cdt = "l1"%string \/ cdt = "l2"%string ->
  F64.is_zero (F64.mul x x) = true ->
  bilateral_blur fexp fsum builder input ks (SigmaFloat x) ss border cdt =
  ([OpPad; OpUnfold; OpUnfold; OpFlatten; OpUnsqueeze; OpSub] ++
   distance_ops cdt,
   Raise ZeroDivisionError) /\
  is_validation_error ZeroDivisionError = false /\
  forall y : float,
    bilateral_blur fexp fsum builder input ks (SigmaFloat (F64.opp y)) ss border
      cdt =
    bilateral_blur fexp fsum builder input ks (SigmaFloat y) ss border cdt.
Proof.
  intros Hs Hwf HH HW Hk Hm Hb Hc Hz.
  split; [|split; [reflexivity|]].
  - destruct (@windows_ok input B C H W ks border m Hs Hwf Hk Hm Hb HH HW)
      as (unfolded & diff & Ew & _ & Rd).
    destruct (@color_distance_ok fsum input B C H W ks m diff cdt Rd Hc)
      as (d & Ed & _).
    unfold bilateral_blur.
    rewrite (@check_input_ok input B C H W Hs), bind_ret.
    unfold prepare_sigma_color. rewrite bind_ret.
    rewrite (bind_ok _ Ew). cbv beta iota zeta.
    rewrite (bind_ok _ Ed). cbv beta.
    unfold color_kernel. rewrite (lift_ok (py_pow2_zero x Hz)), bind_ret.
    unfold py_truediv. rewrite Hz. cbn. now rewrite app_nil_r.
  - intros y. unfold bilateral_blur.
    apply bind_ext. intros _. unfold prepare_sigma_color. rewrite !bind_ret.
    apply bind_ext. intros [[[kx ky] unfolded] diff].
    apply bind_ext. intros d.
    unfold color_kernel. now rewrite py_pow2_opp.
Qed.

Lemma C10_scalar_sigma_zero_division_witness :
  bilateral_blur_f64 ex_image (KsInt 3) (SigmaFloat F64.zero)
    ex_sigma_space "reflect" "l1" =
  ([OpPad; OpUnfold; OpUnfold; OpFlatten; OpUnsqueeze; OpSub; OpAbs; OpSum;
    OpSquare],
   Raise ZeroDivisionError) /\
  is_validation_error ZeroDivisionError = false /\
  forall y : float,
    bilateral_blur_f64 ex_image (KsInt 3) (SigmaFloat (F64.opp y))
      ex_sigma_space "reflect" "l1" =
    bilateral_blur_f64 ex_image (KsInt 3) (SigmaFloat y)
      ex_sigma_space "reflect" "l1".
Proof.
  apply (@C10_scalar_sigma_zero_division Libm.exp sum_in_lanes
           gaussian_kernel2d ex_image 1 1 2 2 (KsInt 3) F64.zero
           ex_sigma_space "reflect" Reflect "l1");
    try reflexivity; try lia.
  left; reflexivity.
Defined.

(** C10 as stated fails: with the Python float 0.0 for sigma_color the call
    does not go on to produce non-finite values; it raises
    ZeroDivisionError and returns nothing. *)
Lemma C10_counterexample :
  sigma_color_checked (SigmaFloat F64.zero) = true /\
  bilateral_blur_f64 ex_image (KsInt 3) (SigmaFloat F64.zero)
    ex_sigma_space "reflect" "l1" =
  ([OpPad; OpUnfold; OpUnfold; OpFlatten; OpUnsqueeze; OpSub; OpAbs; OpSum;
    OpSquare],
   Raise ZeroDivisionError) /\
  forall out,
    outcome (bilateral_blur_f64 ex_image (KsInt 3) (SigmaFloat F64.zero)
               ex_sigma_space "reflect" "l1") <> Ok out.
Proof.
  split; [reflexivity|].
  assert (E : bilateral_blur_f64 ex_image (KsInt 3) (SigmaFloat F64.zero)
                ex_sigma_space "reflect" "l1" =
              ([OpPad; OpUnfold; OpUnfold; OpFlatten; OpUnsqueeze; OpSub;
                OpAbs; OpSum; OpSquare],
               Raise ZeroDivisionError))
    by (vm_compute; reflexivity).
  split; [exact E|]. intros out. rewrite E. discriminate.
Qed.

(* ================================================================== *)
(** ** The centre sample of a window *)

Lemma pad_source_centre (m : PadMode) (n p i : nat) :
  pad_allowed m 1 n n p p p p = true -> i < n ->
  pad_source m n p (i + p) = Some i.
Proof.
  intros Ha Hi. destruct m; simpl in *.
  - replace (p <=? i + p) with true by (symmetry; apply Nat.leb_le; lia).
    replace (i + p <? p + n) with true by (symmetry; apply Nat.ltb_lt; lia).
    simpl. f_equal. lia.
  - destruct (Nat.ltb_spec (i + p) p); [lia|].
    destruct (Nat.ltb_spec (i + p) (p + n)); [|lia]. f_equal. lia.
  - destruct (Nat.ltb_spec (i + p) p); [lia|]. f_equal. lia.
  - apply andb_prop in Ha as [Ha _]. apply andb_prop in Ha as [Ha _].
    apply andb_prop in Ha as [Ha _]. apply Nat.leb_le in Ha.
    f_equal. replace (i + p + (n - p)) with (i + 1 * n) by lia.
    rewrite Nat.Div0.mod_add. now apply Nat.mod_small.
Qed.

Lemma border_ok_axes (m : PadMode) (ks : KernelSize) (C H W : nat) :
  border_ok m ks C H W = true -> 0 < H -> 0 < W ->
  pad_allowed m 1 H H (pad_y_of ks) (pad_y_of ks) (pad_y_of ks)
    (pad_y_of ks) = true /\
  pad_allowed m 1 W W (pad_x_of ks) (pad_x_of ks) (pad_x_of ks)
    (pad_x_of ks) = true.
Proof.
  unfold border_ok. intros Hb HH HW. destruct m; simpl in *.
  - auto.
  - apply andb_prop in Hb as [F Hy2].
    apply andb_prop in F as [F Hy1]. apply andb_prop in F as [F Hx2].
    apply andb_prop in F as [_ Hx1].
    now rewrite Hx1, Hy1.
  - split; apply andb_true_intro; split;
      try (apply andb_true_intro; split); now apply Nat.ltb_lt.
  - apply andb_prop in Hb as [F Hy2].
    apply andb_prop in F as [F Hy1]. apply andb_prop in F as [Hx1 Hx2].
    now rewrite Hx1, Hy1.
Qed.

Lemma centre_index_in_window (ks : KernelSize) :
  kernel_ok ks = true -> centre_index ks < ky_of ks * kx_of ks.
Proof.
  intros Hk. destruct (kernel_ok_sizes ks Hk) as [Ekx Eky].
  unfold centre_index. nia.
Qed.

(** The centre sample of the window at (h,w) is the pixel (h,w). *)
Lemma centre_neighborhood (m : PadMode) (input : Tensor) (C H W : nat)
  (ks : KernelSize) (b c h w : nat) :
  kernel_ok ks = true -> border_ok m ks C H W = true ->
  h < H -> w < W ->
  neighborhood m input H W ks b c h w (centre_index ks) =
  get input [b; c; h; w].
Proof.
  intros Hk Hb Hh Hw. destruct (kernel_ok_sizes ks Hk) as [Ekx Eky].
  destruct (@border_ok_axes m ks C H W Hb) as [Ay Ax]; try lia.
  unfold neighborhood, padded_image, padded_value, centre_index.
  rewrite Nat.div_add_l by lia.
  rewrite (Nat.div_small (pad_x_of ks)) by lia. rewrite Nat.add_0_r.
  rewrite Nat.add_comm with (n := pad_y_of ks * kx_of ks).
  rewrite Nat.Div0.mod_add. rewrite Nat.mod_small by lia.
  now rewrite (pad_source_centre _ _ Ay Hh), (pad_source_centre _ _ Ax Hw).
Qed.

Lemma sub_self (x : float) : F64.is_finite x = true -> F64.sub x x = F64.zero.
Proof.
  destruct x as [[|] | | | s mx ex]; try discriminate; intros _;
    try reflexivity.
  unfold F64.sub, SFsub. now rewrite Z.sub_diag.
Qed.


(* ================================================================== *)
(** ** The division of line 76 *)


Lemma ex_kernel_built :
  gaussian_kernel2d (KsInt 3) ex_sigma_space = Ok ex_kernel.
Proof. vm_compute. reflexivity. Qed.








(* ================================================================== *)
(** ** Spatially constant images *)

(** Outside mode constant, every position of a padded axis reads from the
    image. *)
Lemma pad_source_in_image (m : PadMode) (n p i : nat) :
  m <> Constant -> pad_allowed m 1 n n p p p p = true -> 0 < n ->
  i < p + n + p ->
  exists j, pad_source m n p i = Some j /\ j < n.
Proof.
  intros Hm Ha Hn Hi. destruct m; [contradiction| | |]; simpl in *.
  - apply andb_prop in Ha as [Ha _]. apply andb_prop in Ha as [Ha _].
    apply andb_prop in Ha as [_ Ha]. apply Nat.ltb_lt in Ha.
    eexists; split; [reflexivity|].
    destruct (Nat.ltb_spec i p); [lia|].
    destruct (Nat.ltb_spec i (p + n)); lia.
  - eexists; split; [reflexivity|].
    destruct (Nat.ltb_spec i p); lia.
  - eexists; split; [reflexivity|].
    apply Nat.mod_upper_bound. lia.
Qed.

Section ConstantImage.

Variable fsum : Reduction.
Variable m : PadMode.
Variable input : Tensor.
Variables B C H W : nat.
Variable ks : KernelSize.
Variable v : nat -> nat -> float.

Hypothesis fsum_sums : sums fsum.
Hypothesis ks_ok : kernel_ok ks = true.
Hypothesis not_constant_mode : m <> Constant.
Hypothesis border_fits : border_ok m ks C H W = true.
Hypothesis H_pos : 0 < H.
Hypothesis W_pos : 0 < W.
Hypothesis constant : spatially_constant input B C H W v.
Hypothesis finite : forall b c, b < B -> c < C -> F64.is_finite (v b c) = true.

Lemma neighborhood_constant (b c h w k : nat) :
  b < B -> c < C -> h < H -> w < W -> k < ky_of ks * kx_of ks ->
  neighborhood m input H W ks b c h w k = v b c.
Proof.
  intros Hb Hc Hh Hw Hk.
  destruct (kernel_ok_sizes ks ks_ok) as [Ekx Eky].
  assert (Hrow : k / kx_of ks < ky_of ks)
    by (apply Nat.Div0.div_lt_upper_bound; lia).
  assert (Hcol : k mod kx_of ks < kx_of ks)
    by (apply Nat.mod_upper_bound; lia).
  assert (Hay : pad_allowed m 1 H H (pad_y_of ks) (pad_y_of ks) (pad_y_of ks)
                  (pad_y_of ks) = true /\
                pad_allowed m 1 W W (pad_x_of ks) (pad_x_of ks) (pad_x_of ks)
                  (pad_x_of ks) = true).
  { unfold border_ok in border_fits.
    destruct m; [contradiction| | |]; simpl in *.
    - apply andb_prop in border_fits as [F Hy2].
      apply andb_prop in F as [F Hy1]. apply andb_prop in F as [F Hx2].
      apply andb_prop in F as [_ Hx1].
      now rewrite Hx1, Hy1.
    - split; apply andb_true_intro; split;
        try (apply andb_true_intro; split); now apply Nat.ltb_lt.
    - apply andb_prop in border_fits as [F Hy2].
      apply andb_prop in F as [F Hy1]. apply andb_prop in F as [Hx1 Hx2].
      now rewrite Hx1, Hy1. }
  destruct Hay as [Hay Hax].
  destruct (@pad_source_in_image m H (pad_y_of ks) (h + k / kx_of ks)
              not_constant_mode Hay H_pos) as (h' & Eh & Hh'); [lia|].
  destruct (@pad_source_in_image m W (pad_x_of ks) (w + k mod kx_of ks)
              not_constant_mode Hax W_pos) as (w' & Ew & Hw'); [lia|].
  unfold neighborhood, padded_image, padded_value. rewrite Eh, Ew.
  now apply constant.
Qed.

Lemma distance_constant (cdt : string) (b h w k : nat) :
  cdt = "l1"%string \/ cdt = "l2"%string ->
  b < B -> h < H -> w < W -> k < ky_of ks * kx_of ks ->
  distance fsum m input B C H W ks cdt b h w k = F64.zero.
Proof.
  intros Hc Hb Hh Hw Hk.
  assert (Hd : forall c, In c (seq 0 C) ->
                 channel_diff m input H W ks b c h w k = F64.zero).
  { intros c Hin. apply in_seq in Hin. unfold channel_diff.
    rewrite neighborhood_constant by (assumption || lia).
    rewrite constant by (assumption || lia).
    apply sub_self. apply finite; (assumption || lia). }
  unfold distance. destruct Hc as [-> | ->].
  - change (("l1" =? "l1")%string) with true. cbv iota. unfold distance_l1.
    rewrite (sum_of_pos_zeros (fsum_sums _ _)); [reflexivity|].
    intros x Hx. apply in_map_iff in Hx as (c & <- & Hin).
    now rewrite Hd.
  - change (("l2" =? "l1")%string) with false. cbv iota. unfold distance_l2.
    apply (sum_of_pos_zeros (fsum_sums _ _)).
    intros x Hx. apply in_map_iff in Hx as (c & <- & Hin).
    now rewrite Hd.
Qed.

End ConstantImage.

(** C3, as the code has it.  For a valid call on a spatially constant
    float64 image with finite values and border type reflect, replicate or
    circular, every colour distance is exactly +0, so the weights
    w(b,k) = spatial(k) * exp (-0.5 / sigma_color(b)^2 * 0) do not depend on
    the image, and each output pixel is the quotient q(b,c) of the sum of
    v * w(b,k) by the sum of w(b,k), where v is the value of its channel and
    the sums are torch's.  The output is therefore spatially constant again;
    its value is the rounded quotient of two rounded sums. *)
Theorem C3_constant_image_is_averaged (fexp : float -> float)
  (fsum : Reduction) (builder : KernelSize -> SigmaSpace -> result Tensor)
  (input : Tensor) (B C H W : nat) (ks : KernelSize) (sigma : SigmaColor)
  (ss : SigmaSpace) (border : string) (m : PadMode) (cdt : string)
  (sk : Tensor) (v : nat -> nat -> float) :
  sums fsum ->
  valid_call builder input B C H W ks sigma ss border m cdt sk ->
  m <> Constant ->
  spatially_constant input B C H W v ->
  (forall b c, b < B -> c < C -> F64.is_finite (v b c) = true) ->
  let window := seq 0 (ky_of ks * kx_of ks) in
  let weight b k :=
    F64.mul (nth k (data sk) F64.nan)
      (fexp (F64.mul (sigma_coefficient sigma b) F64.zero)) in
  let quotient b c :=
    F64.div
      (fsum (windows_shape B C H W ks) 4
         (map (fun k => F64.mul (v b c) (weight b k)) window))
      (fsum (weights_shape B H W ks) 4 (map (fun k => weight b k) window)) in
  exists out,
    outcome (bilateral_blur fexp fsum builder input ks sigma ss border cdt) =
    Ok out /\
    shape out = shape input /\
    (forall b h w k, b < B -> h < H -> w < W -> k < ky_of ks * kx_of ks ->
       distance fsum m input B C H W ks cdt b h w k = F64.zero) /\
    spatially_constant out B C H W quotient.
Proof.
  intros Hsum V Hm Hconst Hfin window weight quotient.
  destruct (valid_call_runs fexp fsum V) as (out & E & R).
  destruct V as [Vs Vwf VH VW Vk Vm Vb Vsig Vd Vsp Vss Vsw].
  exists out. rewrite E. split; [reflexivity|].
  split; [rewrite (Repr_shape R); congruence|].
  assert (Hdist : forall b h w k,
             b < B -> h < H -> w < W -> k < ky_of ks * kx_of ks ->
             distance fsum m input B C H W ks cdt b h w k = F64.zero).
  { intros b h w k Hb Hh Hw Hk.
    now apply (@distance_constant fsum m input B C H W ks v Hsum Vk Hm Vb
                 VH VW Hconst Hfin cdt b h w k). }
  split; [exact Hdist|].
  intros b c h w Hb Hc Hh Hw.
  rewrite (Repr_get [b; c; h; w] R) by range.
  unfold output_pixel, quotient. f_equal.
  - f_equal. apply map_ext_in. intros k Hk. apply in_seq in Hk.
    rewrite (@neighborhood_constant m input B C H W ks v Vk Hm Vb VH VW
               Hconst b c h w k) by (assumption || lia).
    unfold combined_weight, color_weight. rewrite Hdist by (assumption || lia).
    reflexivity.
  - f_equal. apply map_ext_in. intros k Hk. apply in_seq in Hk.
    unfold combined_weight, color_weight. rewrite Hdist by (assumption || lia).
    reflexivity.
Qed.

Lemma ex_ones_valid :
  valid_call gaussian_kernel2d ex_ones 1 1 2 2 (KsInt 3)
    (SigmaFloat F64.one) ex_sigma_space "reflect" Reflect "l1" ex_kernel.
Proof.
  constructor; try reflexivity; try lia.
  left; reflexivity.
Defined.

Lemma ex_ones_constant :
  spatially_constant ex_ones 1 1 2 2 (fun _ _ => F64.one).
Proof.
  intros b c h w Hb Hc Hh Hw.
  assert (Eb : b = 0) by lia. assert (Ec : c = 0) by lia. subst b c.
  destruct h as [|[|h]]; [| |lia]; destruct w as [|[|w]]; try lia;
    reflexivity.
Defined.

Lemma C3_constant_image_is_averaged_witness :
  let weight b k :=
    F64.mul (nth k (data ex_kernel) F64.nan)
      (Libm.exp (F64.mul (sigma_coefficient (SigmaFloat F64.one) b)
                   F64.zero)) in
  exists out,
    outcome (bilateral_blur_f64 ex_ones (KsInt 3) (SigmaFloat F64.one)
               ex_sigma_space "reflect" "l1") = Ok out /\
    shape out = shape ex_ones /\
    (forall b h w k, b < 1 -> h < 2 -> w < 2 -> k < 9 ->
       distance sum_in_lanes Reflect ex_ones 1 1 2 2 (KsInt 3) "l1" b h w k =
       F64.zero) /\
    spatially_constant out 1 1 2 2
      (fun b c =>
         F64.div
           (sum_in_lanes [1; 1; 2; 2; 9] 4
              (map (fun k => F64.mul F64.one (weight b k)) (seq 0 9)))
           (sum_in_lanes [1; 1; 2; 2; 9] 4
              (map (fun k => weight b k) (seq 0 9)))).
Proof.
  apply (@C3_constant_image_is_averaged Libm.exp sum_in_lanes
           gaussian_kernel2d ex_ones 1 1 2 2 (KsInt 3) (SigmaFloat F64.one)
           ex_sigma_space "reflect" Reflect "l1" ex_kernel
           (fun _ _ => F64.one) sum_in_lanes_sums ex_ones_valid).
  - discriminate.
  - exact ex_ones_constant.
  - intros b c _ _. reflexivity.
Defined.

(** C3 as stated fails twice.  With border type constant the zero padding
    enters the windows, and every pixel of the image of ones comes out
    below 1.  With border type reflect the 2 x 2 image of nines comes out
    as 9.000000000000002 at every pixel: the quotient of the rounded sums
    is one unit in the last place above 9. *)
Lemma C3_counterexample :
  (spatially_constant ex_ones 1 1 2 2 (fun _ _ => F64.one) /\
   valid_call gaussian_kernel2d ex_ones 1 1 2 2 (KsInt 3)
     (SigmaFloat F64.one) ex_sigma_space "constant" Constant "l1" ex_kernel /\
   exists out,
     outcome (bilateral_blur_f64 ex_ones (KsInt 3) (SigmaFloat F64.one)
                ex_sigma_space "constant" "l1") = Ok out /\
     out <> ex_ones /\
     forall h w, h < 2 -> w < 2 ->
       SFltb (get out [0; 0; h; w]) F64.one = true) /\
  (spatially_constant ex_nines 1 1 2 2 (fun _ _ => F64.of_Z 9) /\
   valid_call gaussian_kernel2d ex_nines 1 1 2 2 (KsInt 3)
     (SigmaFloat F64.one) ex_sigma_space "reflect" Reflect "l1" ex_kernel /\
   exists out,
     outcome (bilateral_blur_f64 ex_nines (KsInt 3) (SigmaFloat F64.one)
                ex_sigma_space "reflect" "l1") = Ok out /\
     out <> ex_nines /\
     forall h w, h < 2 -> w < 2 ->
       get out [0; 0; h; w] = S754_finite false 5066549580791809 (-49) /\
       F64.of_Z 9 = S754_finite false 5066549580791808 (-49)).
Proof.
  split.
  - split; [exact ex_ones_constant|]. split.
    { constructor; try exact ex_kernel_built; try reflexivity; try lia.
      left; reflexivity. }
    eexists. split; [vm_compute; reflexivity|]. split; [discriminate|].
    intros h w Hh Hw.
    destruct h as [|[|h]]; [| |lia]; destruct w as [|[|w]]; try lia;
      reflexivity.
  - split.
    { intros b c h w Hb Hc Hh Hw.
      assert (Eb : b = 0) by lia. assert (Ec : c = 0) by lia. subst b c.
      destruct h as [|[|h]]; [| |lia]; destruct w as [|[|w]]; try lia;
        reflexivity. }
    split.
    { constructor; try exact ex_kernel_built; try reflexivity; try lia.
      left; reflexivity. }
    eexists. split; [vm_compute; reflexivity|]. split; [discriminate|].
    intros h w Hh Hw.
    destruct h as [|[|h]]; [| |lia]; destruct w as [|[|w]]; try lia;
      split; reflexivity.
Qed.

(** How a sum is added up shows in the result: on the image ((1,2),(3,4))
    index order and the four-lane order give different outputs. *)
Remark order_of_additions_matters :
  outcome (bilateral_blur Libm.exp sum_in_order gaussian_kernel2d ex_image
             (KsInt 3) (SigmaFloat F64.one) ex_sigma_space "reflect" "l1") <>
  outcome (bilateral_blur Libm.exp sum_in_lanes gaussian_kernel2d ex_image
             (KsInt 3) (SigmaFloat F64.one) ex_sigma_space "reflect" "l1").
Proof. vm_compute. discriminate. Qed.

(* ================================================================== *)
(** ** Two runs *)

(** The all-zero image of shape (1,1,5,5) with kernel size (3,3),
    sigma_color 0.1, sigma_space (1.5,1.5) and border type reflect comes
    out all-zero. *)
Example zero_image_run :
  bilateral_blur_f64 ex_zeros (KsPair 3 3) (SigmaFloat ex_tenth)
    ex_sigma_space15 "reflect" "l1" =
  (success_ops (SigmaFloat ex_tenth) "l1", Ok ex_zeros).
Proof. vm_compute. reflexivity. Qed.

(** The docstring's example: any image of shape (2,4,5,5), kernel size
    (3,3), sigma_color 0.1, sigma_space (1.5,1.5), the default border and
    distance types; the output has shape (2,4,5,5). *)
Example docstring_run (input : Tensor) :
  shape input = [2; 4; 5; 5] -> wf input ->
  exists out,
    outcome (bilateral_blur_f64 input (KsPair 3 3) (SigmaFloat ex_tenth)
               ex_sigma_space15 "reflect" "l1") = Ok out /\
    shape out = [2; 4; 5; 5].
Proof.
  intros Hs Hw.
  destruct (gaussian_kernel2d (KsPair 3 3) ex_sigma_space15) as [sk | e] eqn:E;
    [|vm_compute in E; discriminate].
  assert (V : valid_call gaussian_kernel2d input 2 4 5 5 (KsPair 3 3)
                (SigmaFloat ex_tenth) ex_sigma_space15 "reflect" Reflect "l1"
                sk).
  { constructor; try assumption; try reflexivity; try lia.
    - left; reflexivity.
    - vm_compute in E. now injection E as <-.
    - vm_compute in E. now injection E as <-. }
  destruct (valid_call_runs Libm.exp sum_in_lanes V) as (out & Eo & R).
  exists out. unfold bilateral_blur_f64. rewrite Eo.
  split; [reflexivity | exact (Repr_shape R)].
Qed.

(* ================================================================== *)
(** * Further properties of bilateral_blur *)

(** ** Arguments that are turned away *)

Lemma check_rank4 (input : Tensor) :
  length (shape input) = 4 ->
  KORNIA_CHECK_SHAPE input ["B"; "C"; "H"; "W"]%string = ret tt.
Proof. intros H. unfold KORNIA_CHECK_SHAPE. now rewrite H. Qed.

(** X1.  An input that does not have four dimensions is rejected with a
    TypeError before any tensor operation. *)
Theorem X1_rank_not_four_rejected (fexp : float -> float)
  (fsum : Reduction) (builder : KernelSize -> SigmaSpace -> result Tensor)
  (input : Tensor) (ks : KernelSize) (sigma : SigmaColor) (ss : SigmaSpace)
  (border cdt : string) :
  length (shape input) <> 4 ->
  bilateral_blur fexp fsum builder input ks sigma ss border cdt =
  ([], Raise TypeError).
Proof.
  intros H. unfold bilateral_blur, KORNIA_CHECK_SHAPE.
  change (length ["B"; "C"; "H"; "W"]%string) with 4.
  destruct (Nat.eqb_spec (length (shape input)) 4); [contradiction|].
  reflexivity.
Qed.

Lemma X1_rank_not_four_rejected_witness :
  bilateral_blur_f64 ex_rank3 (KsInt 3) (SigmaFloat F64.one) ex_sigma_space
    "reflect" "l1" = ([], Raise TypeError).
Proof.
  apply (@X1_rank_not_four_rejected Libm.exp sum_in_lanes gaussian_kernel2d
           ex_rank3).
  simpl. lia.
Defined.

(** X2.  With a 4-D image, a sigma_color tensor that does not have exactly
    one dimension is rejected with a TypeError before any tensor
    operation. *)
Theorem X2_sigma_tensor_rank_rejected (fexp : float -> float)
  (fsum : Reduction) (builder : KernelSize -> SigmaSpace -> result Tensor)
  (input : Tensor) (ks : KernelSize) (t : Tensor) (ss : SigmaSpace)
  (border cdt : string) :
  length (shape input) = 4 -> length (shape t) <> 1 ->
  bilateral_blur fexp fsum builder input ks (SigmaTensor t) ss border cdt =
  ([], Raise TypeError).
Proof.
  intros H4 H1. unfold bilateral_blur. rewrite (check_rank4 input H4), bind_ret.
  rewrite (prepare_unchecked (SigmaTensor t)); [reflexivity|].
  unfold sigma_color_checked. now apply Nat.eqb_neq.
Qed.

Lemma X2_sigma_tensor_rank_rejected_witness :
  bilateral_blur_f64 ex_image (KsInt 3) (SigmaTensor ex_sigma_matrix)
    ex_sigma_space "reflect" "l1" = ([], Raise TypeError).
Proof.
  apply (@X2_sigma_tensor_rank_rejected Libm.exp sum_in_lanes
           gaussian_kernel2d ex_image).
  - reflexivity.
  - simpl. lia.
Defined.

Lemma rank4_shape (input : Tensor) :
  length (shape input) = 4 -> exists B C H W, shape input = [B; C; H; W].
Proof.
  destruct (shape input) as [|B [|C [|H [|W [|? ?]]]]]; try discriminate.
  intros _. now exists B, C, H, W.
Qed.

(** The call up to the padding of line 60. *)
Lemma blur_until_pad (fexp : float -> float)
  (fsum : Reduction) (builder : KernelSize -> SigmaSpace -> result Tensor)
  (input : Tensor) (ks : KernelSize) (sigma : SigmaColor) (ss : SigmaSpace)
  (border cdt : string) (e : Exn) :
  length (shape input) = 4 -> sigma_color_checked sigma = true ->
  kernel_ok ks = true ->
  pad input (pad_x_of ks, pad_x_of ks, pad_y_of ks, pad_y_of ks) border =
  ([], Raise e) ->
  bilateral_blur fexp fsum builder input ks sigma ss border cdt =
  (prepare_ops sigma, Raise e).
Proof.
  intros H4 Hc Hk Hp.
  destruct (prepare_checked sigma Hc) as (sigma' & Ep & _).
  unfold bilateral_blur. rewrite (check_rank4 input H4), bind_ret.
  rewrite (bind_ok _ Ep). cbv beta.
  unfold windows. rewrite (unpack_ok ks Hk), bind_ret, zero_padding_eq.
  fold (pad_x_of ks) (pad_y_of ks). rewrite Hp.
  cbn. now rewrite app_nil_r.
Qed.

(** X3.  A border type other than constant, reflect, replicate and circular
    is turned away by the padding with a NotImplementedError, before any
    operation on the image. *)
Theorem X3_unknown_border_type_rejected (fexp : float -> float)
  (fsum : Reduction) (builder : KernelSize -> SigmaSpace -> result Tensor)
  (input : Tensor) (ks : KernelSize) (sigma : SigmaColor) (ss : SigmaSpace)
  (border cdt : string) :
  length (shape input) = 4 -> sigma_color_checked sigma = true ->
  kernel_ok ks = true -> parse_mode border = None ->
  bilateral_blur fexp fsum builder input ks sigma ss border cdt =
  (prepare_ops sigma, Raise NotImplementedError).
Proof.
  intros H4 Hc Hk Hm. apply blur_until_pad; auto.
  unfold pad. now rewrite Hm.
Qed.

Lemma X3_unknown_border_type_rejected_witness :
  bilateral_blur_f64 ex_image (KsInt 3) (SigmaFloat F64.one) ex_sigma_space
    "mirror" "l1" = ([], Raise NotImplementedError).
Proof.
  apply (@X3_unknown_border_type_rejected Libm.exp sum_in_lanes
           gaussian_kernel2d ex_image (KsInt 3) (SigmaFloat F64.one));
    reflexivity.
Defined.

(** X4.  With border type reflect the padding (k - 1) / 2 must be smaller
    than the image in both directions: otherwise the call fails with a
    RuntimeError before any operation on the image. *)
Theorem X4_reflect_needs_small_kernel (fexp : float -> float)
  (fsum : Reduction) (builder : KernelSize -> SigmaSpace -> result Tensor)
  (input : Tensor) (B C H W : nat) (ks : KernelSize) (sigma : SigmaColor)
  (ss : SigmaSpace) (border cdt : string) :
  shape input = [B; C; H; W] -> sigma_color_checked sigma = true ->
  kernel_ok ks = true -> parse_mode border = Some Reflect ->
  H <= pad_y_of ks \/ W <= pad_x_of ks ->
  bilateral_blur fexp fsum builder input ks sigma ss border cdt =
  (prepare_ops sigma, Raise RuntimeError).
Proof.
  intros Hs Hc Hk Hm Hsmall. apply blur_until_pad; auto.
  - now rewrite Hs.
  - unfold pad. rewrite Hm, Hs.
    replace (pad_allowed Reflect C H W (pad_x_of ks) (pad_x_of ks)
               (pad_y_of ks) (pad_y_of ks)) with false; [reflexivity|].
    symmetry. unfold pad_allowed.
    destruct Hsmall as [Hy | Hx].
    + replace (pad_y_of ks <? H) with false
        by (symmetry; apply Nat.ltb_ge; exact Hy).
      now rewrite !andb_false_r.
    + replace (pad_x_of ks <? W) with false
        by (symmetry; apply Nat.ltb_ge; exact Hx).
      now rewrite !andb_false_r.
Qed.

Lemma X4_reflect_needs_small_kernel_witness :
  bilateral_blur_f64 ex_pixel (KsInt 3) (SigmaFloat F64.one) ex_sigma_space
    "reflect" "l1" = ([], Raise RuntimeError).
Proof.
  apply (@X4_reflect_needs_small_kernel Libm.exp sum_in_lanes
           gaussian_kernel2d ex_pixel 1 1 1 1 (KsInt 3) (SigmaFloat F64.one));
    try reflexivity.
  left. vm_compute. lia.
Defined.

(** ** Images without rows or columns *)

Lemma outcome_bind_ok (A B : Type) (m : M A) (f : A -> M B) (tr : list Op)
  (a : A) :
  m = (tr, Ok a) -> outcome (bind m f) = outcome (f a).
Proof. intros ->. unfold bind, outcome. now destruct (f a). Qed.

Lemma outcome_bind_raise_l (A B : Type) (m : M A) (f : A -> M B) (e : Exn) :
  outcome m = Raise e -> outcome (bind m f) = Raise e.
Proof.
  destruct m as [tr [a | e']]; unfold outcome; simpl; [discriminate|].
  now intros [= ->].
Qed.

Lemma outcome_bind_did (A B : Type) (op : Op) (a : A) (f : A -> M B) :
  outcome (bind (did op a) f) = outcome (f a).
Proof. now apply outcome_bind_ok with (tr := [op]). Qed.

(** X5.  An image with no rows or no columns cannot be filtered: whatever
    the border type, the padding or the window extraction fails with a
    RuntimeError. *)
Theorem X5_empty_image_rejected (fexp : float -> float)
  (fsum : Reduction) (builder : KernelSize -> SigmaSpace -> result Tensor)
  (input : Tensor) (B C H W : nat) (ks : KernelSize) (sigma : SigmaColor)
  (ss : SigmaSpace) (border : string) (m : PadMode) (cdt : string) :
  shape input = [B; C; H; W] -> sigma_color_checked sigma = true ->
  kernel_ok ks = true -> parse_mode border = Some m ->
  H = 0 \/ W = 0 ->
  outcome (bilateral_blur fexp fsum builder input ks sigma ss border cdt) =
  Raise RuntimeError.
Proof.
  intros Hs Hc Hk Hm Hempty.
  destruct (kernel_ok_sizes ks Hk) as [Ekx Eky].
  destruct (prepare_checked sigma Hc) as (sigma' & Ep & _).
  unfold bilateral_blur.
  rewrite (@check_input_ok input B C H W Hs), bind_ret.
  rewrite (outcome_bind_ok _ Ep).
  apply outcome_bind_raise_l.
  unfold windows. rewrite (unpack_ok ks Hk), bind_ret, zero_padding_eq.
  fold (pad_x_of ks) (pad_y_of ks) (kx_of ks) (ky_of ks).
  unfold pad. rewrite Hm, Hs.
  destruct (pad_allowed m C H W (pad_x_of ks) (pad_x_of ks) (pad_y_of ks)
              (pad_y_of ks)); [|reflexivity].
  rewrite outcome_bind_did.
  unfold unfold at 1. cbn [shape tabulate].
  change (norm_dim (length [B; C; pad_y_of ks + H + pad_y_of ks;
                            pad_x_of ks + W + pad_x_of ks]) 2)
    with (Some 2).
  cbn [nth].
  destruct (Nat.leb_spec (ky_of ks) (pad_y_of ks + H + pad_y_of ks))
    as [Hrows | Hrows]; [|reflexivity].
  cbn [andb Nat.ltb Nat.leb]. rewrite outcome_bind_did.
  unfold unfold at 1. cbn [shape tabulate set_nth app].
  change (norm_dim (length [B; C;
                            (pad_y_of ks + H + pad_y_of ks - ky_of ks) / 1 + 1;
                            pad_x_of ks + W + pad_x_of ks; ky_of ks]) 3)
    with (Some 3).
  cbn [nth].
  destruct (Nat.leb_spec (kx_of ks) (pad_x_of ks + W + pad_x_of ks))
    as [Hcols | Hcols]; [|reflexivity].
  exfalso. lia.
Qed.

Lemma X5_empty_image_rejected_witness :
  outcome (bilateral_blur_f64 ex_no_rows (KsInt 3) (SigmaFloat F64.one)
             ex_sigma_space "constant" "l1") = Raise RuntimeError.
Proof.
  apply (@X5_empty_image_rejected Libm.exp sum_in_lanes gaussian_kernel2d
           ex_no_rows 1 1 0 2 (KsInt 3) (SigmaFloat F64.one) ex_sigma_space
           "constant" Constant "l1");
    try reflexivity.
  left. reflexivity.
Defined.

(** ** Errors that surface after the windows were computed *)

(** X6.  An exception of the spatial kernel builder is passed on
    unchanged, and only after the windows, the colour distances and the
    colour weights have been computed. *)
Theorem X6_builder_error_passed_on (fexp : float -> float)
  (fsum : Reduction) (builder : KernelSize -> SigmaSpace -> result Tensor)
  (input : Tensor) (B C H W : nat) (ks : KernelSize) (sigma : SigmaColor)
  (ss : SigmaSpace) (border : string) (m : PadMode) (cdt : string)
  (e : Exn) :
  shape input = [B; C; H; W] -> wf input -> 0 < H -> 0 < W ->
  kernel_ok ks = true -> parse_mode border = Some m ->
  border_ok m ks C H W = true -> sigma_color_ok B sigma = true ->
  cdt = "l1"%string \/ cdt = "l2"%string ->
  builder ks ss = Raise e ->
  bilateral_blur fexp fsum builder input ks sigma ss border cdt =
  (prepare_ops sigma ++ windows_ops ++ distance_ops cdt ++
   color_kernel_ops sigma,
   Raise e).
Proof.
  intros Hs Hwf HH HW Hk Hm Hb Hsig Hc He.
  destruct (prepare_ok B sigma Hsig) as (sigma' & Ep & Hp).
  destruct (@windows_ok input B C H W ks border m Hs Hwf Hk Hm Hb HH HW)
    as (unfolded & diff & Ew & _ & Rd).
  destruct (@color_distance_ok fsum input B C H W ks m diff cdt Rd Hc)
    as (d & Ed & Rdist).
  destruct (@color_kernel_ok fexp B H W ks sigma sigma' d _ Hsig Hp Rdist)
    as (ck & Eck & _).
  unfold bilateral_blur.
  rewrite (@check_input_ok input B C H W Hs), bind_ret.
  rewrite (bind_ok _ Ep). cbv beta.
  rewrite (bind_ok _ Ew). cbv beta iota zeta.
  rewrite (bind_ok _ Ed). cbv beta.
  rewrite (bind_ok _ Eck). cbv beta.
  unfold space_kernel. rewrite (lift_raise He).
  cbn [bind raise trace outcome fst snd]. now rewrite app_nil_r.
Qed.

Lemma X6_builder_error_passed_on_witness :
  bilateral_blur_f64 ex_image (KsInt 3) (SigmaFloat F64.one)
    ex_bad_sigma_space "reflect" "l1" =
  ([OpPad; OpUnfold; OpUnfold; OpFlatten; OpUnsqueeze; OpSub; OpAbs; OpSum;
    OpSquare; OpMul; OpExp],
   Raise TypeError).
Proof.
  apply (@X6_builder_error_passed_on Libm.exp sum_in_lanes gaussian_kernel2d
           ex_image 1 1 2 2 (KsInt 3) (SigmaFloat F64.one) ex_bad_sigma_space
           "reflect" Reflect "l1" TypeError);
    try reflexivity; try lia.
  left; reflexivity.
Defined.

(** X7.  A finite Python float sigma_color whose square overflows does not
    act as an infinite sigma: the call raises OverflowError when line 70
    forms sigma_color**2, after the colour distances were computed. *)
Theorem X7_huge_scalar_sigma_overflows (fexp : float -> float)
  (fsum : Reduction) (builder : KernelSize -> SigmaSpace -> result Tensor)
  (input : Tensor) (B C H W : nat) (ks : KernelSize) (x : float)
  (ss : SigmaSpace) (border : string) (m : PadMode) (cdt : string) :
  shape input = [B; C; H; W] -> wf input -> 0 < H -> 0 < W ->
  kernel_ok ks = true -> parse_mode border = Some m ->
  border_ok m ks C H W = true ->
  cdt = "l1"%string \/ cdt = "l2"%string ->
  F64.is_finite x = true -> F64.is_inf (F64.mul x x) = true ->
  bilateral_blur fexp fsum builder input ks (SigmaFloat x) ss border cdt =
  (windows_ops ++ distance_ops cdt, Raise OverflowError).
Proof.
  intros Hs Hwf HH HW Hk Hm Hb Hc Hfin Hinf.
  destruct (@windows_ok input B C H W ks border m Hs Hwf Hk Hm Hb HH HW)
    as (unfolded & diff & Ew & _ & Rd).
  destruct (@color_distance_ok fsum input B C H W ks m diff cdt Rd Hc)
    as (d & Ed & _).
  unfold bilateral_blur.
  rewrite (@check_input_ok input B C H W Hs), bind_ret.
  unfold prepare_sigma_color. rewrite bind_ret.
  rewrite (bind_ok _ Ew). cbv beta iota zeta.
  rewrite (bind_ok _ Ed). cbv beta.
  unfold color_kernel, py_pow2. rewrite Hfin, Hinf.
  cbn. now rewrite app_nil_r.
Qed.

Lemma X7_huge_scalar_sigma_overflows_witness :
  bilateral_blur_f64 ex_image (KsInt 3) (SigmaFloat ex_huge) ex_sigma_space
    "reflect" "l1" =
  ([OpPad; OpUnfold; OpUnfold; OpFlatten; OpUnsqueeze; OpSub; OpAbs; OpSum;
    OpSquare],
   Raise OverflowError).
Proof.
  apply (@X7_huge_scalar_sigma_overflows Libm.exp sum_in_lanes
           gaussian_kernel2d ex_image 1 1 2 2 (KsInt 3) ex_huge
           ex_sigma_space "reflect" Reflect "l1");
    try reflexivity; try lia.
  left; reflexivity.
Defined.

(** ** Tensors are determined by their shape and elements *)

Lemma nth_indices_inv (sh : list nat) (n : nat) (d : list nat) :
  n < numel sh ->
  in_range sh (nth n (indices sh) d) /\ ravel sh (nth n (indices sh) d) = n.
Proof.
  revert n. induction sh as [|a sh IH]; intros n Hn.
  - simpl in Hn. assert (n = 0) by lia. subst n. simpl. auto.
  - cbn [numel fold_right] in Hn. fold (numel sh) in Hn.
    assert (Hm : 0 < numel sh) by nia.
    pose proof (Nat.div_mod_eq n (numel sh)) as E.
    assert (Hr : n mod numel sh < numel sh)
      by (apply Nat.mod_upper_bound; lia).
    assert (Hq : n / numel sh < a)
      by (apply Nat.Div0.div_lt_upper_bound; lia).
    set (q := n / numel sh) in *. set (r := n mod numel sh) in *.
    assert (En : n = q * numel sh + r) by lia.
    clearbody q r. clear E Hn. subst n. cbn [indices].
    rewrite nth_concat_uniform with (a0 := 0).
    + rewrite seq_nth by exact Hq. cbn [Nat.add].
      rewrite nth_map_in with (d' := d) by (now rewrite length_indices).
      destruct (IH r Hr) as [IH1 IH2].
      cbn [in_range ravel]. rewrite IH2. split; [split|]; auto.
    + intros i. now rewrite length_map, length_indices.
    + now rewrite length_seq.
    + exact Hr.
Qed.

Lemma Repr_data (t : Tensor) (sh : list nat) (f : list nat -> float) :
  Repr t sh f -> data t = map f (indices sh).
Proof.
  intros (Hs & Hw & Hg). unfold wf in Hw. rewrite Hs in Hw.
  apply nth_ext with (d := F64.nan) (d' := F64.nan).
  - now rewrite length_map, length_indices.
  - intros n Hn. rewrite Hw in Hn.
    destruct (nth_indices_inv sh [] Hn) as [Hr He].
    rewrite nth_map_in with (d' := []) by (now rewrite length_indices).
    rewrite <- Hg by exact Hr. unfold get. now rewrite Hs, He.
Qed.

Lemma Repr_unique (t1 t2 : Tensor) (sh : list nat) (f g : list nat -> float) :
  Repr t1 sh f -> Repr t2 sh g ->
  (forall idx, in_range sh idx -> f idx = g idx) -> t1 = t2.
Proof.
  intros R1 R2 Hfg.
  pose proof (Repr_data (@Repr_ext t1 sh f g R1 Hfg)) as D1.
  pose proof (Repr_data R2) as D2.
  destruct t1 as [s1 d1], t2 as [s2 d2].
  destruct R1 as (S1 & _), R2 as (S2 & _). simpl in *. congruence.
Qed.

(** ** One channel: the two distances agree *)

Lemma abs_not_neg_zero (x : float) : F64.abs x <> S754_zero true.
Proof. destruct x as [[|] | [|] | | [|] mx ex]; discriminate. Qed.

Lemma square_abs (x : float) : F64.square (F64.abs x) = F64.square x.
Proof. destruct x as [[|] | [|] | | [|] mx ex]; reflexivity. Qed.

Lemma round_false_not_neg_zero (mx ex : Z) (l : location) :
  binary_round_aux F64.prec F64.emax false mx ex l <> S754_zero true.
Proof.
  unfold binary_round_aux.
  destruct (shr_fexp F64.prec F64.emax mx ex l) as [mrs' e'].
  destruct (shr_fexp F64.prec F64.emax _ e' loc_Exact) as [mrs'' e''].
  destruct (shr_m mrs''); [discriminate| |discriminate].
  destruct (e'' <=? F64.emax - F64.prec)%Z; discriminate.
Qed.

Lemma square_not_neg_zero (x : float) : F64.square x <> S754_zero true.
Proof.
  destruct x as [[|] | [|] | | [|] mx ex]; try discriminate;
    apply round_false_not_neg_zero.
Qed.

Lemma distance_one_channel (fsum : Reduction) (m : PadMode) (input : Tensor)
  (B H W : nat) (ks : KernelSize) (b h w k : nat) :
  sums fsum ->
  distance fsum m input B 1 H W ks "l1" b h w k =
  distance fsum m input B 1 H W ks "l2" b h w k.
Proof.
  intros Hsum. unfold distance.
  change (("l1" =? "l1")%string) with true.
  change (("l2" =? "l1")%string) with false. cbv iota.
  unfold distance_l1, distance_l2. cbn [seq map].
  rewrite (sum_of_one (Hsum _ _)) by apply abs_not_neg_zero.
  rewrite (sum_of_one (Hsum _ _)) by apply square_not_neg_zero.
  apply square_abs.
Qed.

(** X8.  On images with a single channel the distance types "l1" and "l2"
    give the same colour distances, hence the same output, whatever the
    order in which torch's [sum] adds. *)
Theorem X8_one_channel_l1_is_l2 (fexp : float -> float)
  (fsum : Reduction) (builder : KernelSize -> SigmaSpace -> result Tensor)
  (input : Tensor) (B H W : nat) (ks : KernelSize) (sigma : SigmaColor)
  (ss : SigmaSpace) (border : string) (m : PadMode) (sk : Tensor) :
  sums fsum ->
  valid_call builder input B 1 H W ks sigma ss border m "l1" sk ->
  exists out,
    outcome (bilateral_blur fexp fsum builder input ks sigma ss border "l1") =
    Ok out /\
    outcome (bilateral_blur fexp fsum builder input ks sigma ss border "l2") =
    Ok out.
Proof.
  intros Hsum V1.
  assert (V2 : valid_call builder input B 1 H W ks sigma ss border m "l2" sk).
  { destruct V1. constructor; auto. }
  destruct (valid_call_runs fexp fsum V1) as (out1 & E1 & R1).
  destruct (valid_call_runs fexp fsum V2) as (out2 & E2 & R2).
  assert (E : out2 = out1).
  { apply (Repr_unique R2 R1). intros idx Hr. split_idx Hr.
    unfold output_pixel, combined_weight, color_weight.
    f_equal; f_equal; apply map_ext; intros k;
      now rewrite (distance_one_channel _ _ _ _ _ _ _ _ _ _ Hsum). }
  subst out2. exists out1. now rewrite E1, E2.
Qed.

Lemma X8_one_channel_l1_is_l2_witness :
  exists out,
    outcome (bilateral_blur_f64 ex_image (KsInt 3) (SigmaFloat F64.one)
               ex_sigma_space "reflect" "l1") = Ok out /\
    outcome (bilateral_blur_f64 ex_image (KsInt 3) (SigmaFloat F64.one)
               ex_sigma_space "reflect" "l2") = Ok out.
Proof.
  exact (X8_one_channel_l1_is_l2 Libm.exp sum_in_lanes_sums ex_valid).
Defined.

(** ** NaN *)

Lemma mul_nan_r (x : float) : F64.mul x F64.nan = F64.nan.
Proof. now destruct x. Qed.

Lemma div_nan_r (x : float) : F64.div x F64.nan = F64.nan.
Proof. now destruct x. Qed.

Lemma sub_self_not_finite (x : float) :
  F64.is_finite x = false -> F64.sub x x = F64.nan.
Proof.
  destruct x as [[|] | [|] | | [|] mx ex]; try discriminate; reflexivity.
Qed.

Lemma sub_self_cases (x : float) :
  F64.sub x x = F64.zero \/ F64.sub x x = F64.nan.
Proof.
  destruct (F64.is_finite x) eqn:E.
  - left. now apply sub_self.
  - right. now apply sub_self_not_finite.
Qed.

(** A weight that is NaN makes the whole pixel NaN. *)
Lemma output_pixel_nan (fexp : float -> float) (fsum : Reduction)
  (m : PadMode) (input : Tensor) (B C H W : nat) (ks : KernelSize)
  (sk : Tensor) (sigma : SigmaColor) (cdt : string) (b c h w k : nat) :
  sums fsum ->
  k < ky_of ks * kx_of ks ->
  combined_weight fexp fsum m input B C H W ks sk sigma cdt b h w k =
  F64.nan ->
  output_pixel fexp fsum m input B C H W ks sk sigma cdt b c h w = F64.nan.
Proof.
  intros Hsum Hk Hw. unfold output_pixel.
  rewrite (sum_of_nan (Hsum (weights_shape B H W ks) 4)).
  - apply div_nan_r.
  - rewrite <- Hw.
    apply (in_map (combined_weight fexp fsum m input B C H W ks sk sigma
                     cdt b h w)).
    apply in_seq. lia.
Qed.

(** X9.  A pixel that is NaN or infinite in one channel makes the output
    NaN at its position in every channel, whatever the order in which
    torch's [sum] adds. *)
Theorem X9_non_finite_pixel_gives_nan (fexp : float -> float)
  (fsum : Reduction) (builder : KernelSize -> SigmaSpace -> result Tensor)
  (input : Tensor) (B C H W : nat) (ks : KernelSize) (sigma : SigmaColor)
  (ss : SigmaSpace) (border : string) (m : PadMode) (cdt : string)
  (sk : Tensor) (b c0 h w : nat) :
  sums fsum ->
  valid_call builder input B C H W ks sigma ss border m cdt sk ->
  fexp F64.nan = F64.nan ->
  b < B -> c0 < C -> h < H -> w < W ->
  F64.is_finite (get input [b; c0; h; w]) = false ->
  exists out,
    outcome (bilateral_blur fexp fsum builder input ks sigma ss border cdt) =
    Ok out /\
    forall c, c < C -> get out [b; c; h; w] = F64.nan.
Proof.
  intros Hsum V Hexp Hb Hc0 Hh Hw Hx.
  destruct (valid_call_runs fexp fsum V) as (out & E & R).
  destruct V as [Vs Vwf VH VW Vk Vm Vb Vsig Vd Vsp Vss Vsw].
  exists out. rewrite E. split; [reflexivity|].
  intros c Hc. rewrite (Repr_get [b; c; h; w] R) by range.
  apply output_pixel_nan with (k := centre_index ks);
    [exact Hsum | now apply centre_index_in_window|].
  assert (Hd : channel_diff m input H W ks b c0 h w (centre_index ks) =
               F64.nan).
  { unfold channel_diff.
    rewrite (@centre_neighborhood m input C H W ks b c0 h w)
      by assumption.
    now apply sub_self_not_finite. }
  assert (Hdist : distance fsum m input B C H W ks cdt b h w
                    (centre_index ks) = F64.nan).
  { unfold distance. destruct Vd as [-> | ->].
    - change (("l1" =? "l1")%string) with true. cbv iota.
      unfold distance_l1. rewrite (sum_of_nan (Hsum _ _)); [reflexivity|].
      change F64.nan with (F64.abs F64.nan) at 1. rewrite <- Hd.
      apply (in_map (fun c1 => F64.abs (channel_diff m input H W ks b c1 h w
                                        (centre_index ks)))).
      apply in_seq. lia.
    - change (("l2" =? "l1")%string) with false. cbv iota.
      unfold distance_l2. apply (sum_of_nan (Hsum _ _)).
      change F64.nan with (F64.square F64.nan) at 1. rewrite <- Hd.
      apply (in_map (fun c1 => F64.square (channel_diff m input H W ks b c1
                                             h w (centre_index ks)))).
      apply in_seq. lia. }
  unfold combined_weight, color_weight.
  now rewrite Hdist, mul_nan_r, Hexp, mul_nan_r.
Qed.

(** ** Example calls for the properties below *)

Lemma ex_nan_valid :
  valid_call gaussian_kernel2d ex_nan_image 1 2 2 2 (KsInt 3)
    (SigmaFloat F64.one) ex_sigma_space "reflect" Reflect "l1" ex_kernel.
Proof.
  constructor; try exact ex_kernel_built; try reflexivity; try lia.
  left; reflexivity.
Defined.

Lemma X9_non_finite_pixel_gives_nan_witness :
  exists out,
    outcome (bilateral_blur_f64 ex_nan_image (KsInt 3) (SigmaFloat F64.one)
               ex_sigma_space "reflect" "l1") = Ok out /\
    forall c, c < 2 -> get out [0; c; 0; 0] = F64.nan.
Proof.
  apply (@X9_non_finite_pixel_gives_nan Libm.exp sum_in_lanes
           gaussian_kernel2d ex_nan_image 1 2 2 2 (KsInt 3)
           (SigmaFloat F64.one) ex_sigma_space "reflect" Reflect "l1"
           ex_kernel 0 0 0 0 sum_in_lanes_sums ex_nan_valid);
    try reflexivity; lia.
Defined.

(** ** A per-batch sigma_color with a zero entry *)

Lemma mul_neg_inf_zero_or_nan (d : float) :
  d = F64.zero \/ d = F64.nan ->
  F64.mul (S754_infinity true) d = F64.nan.
Proof. intros [-> | ->]; reflexivity. Qed.

Lemma sigma_coefficient_zero_entry (t : Tensor) (b : nat) :
  F64.is_zero (get t [b]) = true ->
  sigma_coefficient (SigmaTensor t) b = S754_infinity true.
Proof.
  unfold sigma_coefficient.
  destruct (get t [b]) as [[|] | | |]; try discriminate; reflexivity.
Qed.

Lemma centre_distance_zero_or_nan (fsum : Reduction) (m : PadMode)
  (input : Tensor) (B C H W : nat) (ks : KernelSize) (cdt : string)
  (b h w : nat) :
  sums fsum ->
  kernel_ok ks = true -> border_ok m ks C H W = true ->
  h < H -> w < W ->
  cdt = "l1"%string \/ cdt = "l2"%string ->
  distance fsum m input B C H W ks cdt b h w (centre_index ks) = F64.zero \/
  distance fsum m input B C H W ks cdt b h w (centre_index ks) = F64.nan.
Proof.
  intros Hsum Hk Hb Hh Hw Hc.
  assert (Hd : forall c,
             channel_diff m input H W ks b c h w (centre_index ks) =
             F64.zero \/
             channel_diff m input H W ks b c h w (centre_index ks) =
             F64.nan).
  { intros c. unfold channel_diff.
    rewrite (@centre_neighborhood m input C H W ks b c h w) by assumption.
    apply sub_self_cases. }
  unfold distance. destruct Hc as [-> | ->].
  - change (("l1" =? "l1")%string) with true. cbv iota. unfold distance_l1.
    match goal with
    | |- F64.square ?s = _ \/ _ =>
        assert (Hs : s = F64.zero \/ s = F64.nan)
    end.
    { apply (@sum_zero_or_nan _ _ (Hsum _ _)).
      intros x Hx. apply in_map_iff in Hx as (c & <- & _).
      destruct (Hd c) as [-> | ->]; auto. }
    destruct Hs as [-> | ->]; [now left | now right].
  - change (("l2" =? "l1")%string) with false. cbv iota. unfold distance_l2.
    apply (@sum_zero_or_nan _ _ (Hsum _ _)).
    intros x Hx. apply in_map_iff in Hx as (c & <- & _).
    destruct (Hd c) as [-> | ->]; auto.
Qed.

(** X10.  With a per-batch sigma_color tensor, an entry that is zero makes
    every output pixel of its image NaN: -0.5 / 0 is minus infinity, and
    times the colour distance 0 of the centre sample that is NaN, whatever
    the order in which torch's [sum] adds. *)
Theorem X10_zero_sigma_entry_gives_nan (fexp : float -> float)
  (fsum : Reduction) (builder : KernelSize -> SigmaSpace -> result Tensor)
  (input : Tensor) (B C H W : nat) (ks : KernelSize) (t : Tensor)
  (ss : SigmaSpace) (border : string) (m : PadMode) (cdt : string)
  (sk : Tensor) (b : nat) :
  sums fsum ->
  valid_call builder input B C H W ks (SigmaTensor t) ss border m cdt sk ->
  fexp F64.nan = F64.nan ->
  b < B -> F64.is_zero (get t [b]) = true ->
  exists out,
    outcome (bilateral_blur fexp fsum builder input ks (SigmaTensor t) ss
               border cdt) = Ok out /\
    forall c h w, c < C -> h < H -> w < W ->
      get out [b; c; h; w] = F64.nan.
Proof.
  intros Hsum V Hexp Hb Hz.
  destruct (valid_call_runs fexp fsum V) as (out & E & R).
  destruct V as [Vs Vwf VH VW Vk Vm Vb Vsig Vd Vsp Vss Vsw].
  exists out. rewrite E. split; [reflexivity|].
  intros c h w Hc Hh Hw. rewrite (Repr_get [b; c; h; w] R) by range.
  apply output_pixel_nan with (k := centre_index ks);
    [exact Hsum | now apply centre_index_in_window|].
  unfold combined_weight, color_weight.
  rewrite (sigma_coefficient_zero_entry t b Hz).
  rewrite mul_neg_inf_zero_or_nan
    by (now apply centre_distance_zero_or_nan).
  now rewrite Hexp, mul_nan_r.
Qed.

Lemma ex_zero_entry_valid :
  valid_call gaussian_kernel2d ex_batch22 2 1 2 2 (KsInt 3)
    (SigmaTensor ex_sigma_with_zero) ex_sigma_space "reflect" Reflect "l1"
    ex_kernel.
Proof.
  constructor; try exact ex_kernel_built; try reflexivity; try lia.
  left; reflexivity.
Defined.

Lemma X10_zero_sigma_entry_gives_nan_witness :
  exists out,
    outcome (bilateral_blur_f64 ex_batch22 (KsInt 3)
               (SigmaTensor ex_sigma_with_zero) ex_sigma_space "reflect"
               "l1") = Ok out /\
    forall c h w, c < 1 -> h < 2 -> w < 2 ->
      get out [1; c; h; w] = F64.nan.
Proof.
  apply (@X10_zero_sigma_entry_gives_nan Libm.exp sum_in_lanes
           gaussian_kernel2d ex_batch22 2 1 2 2 (KsInt 3) ex_sigma_with_zero
           ex_sigma_space "reflect" Reflect "l1" ex_kernel 1
           sum_in_lanes_sums ex_zero_entry_valid);
    try reflexivity; lia.
Defined.

(** ** Images of a batch are filtered independently *)

Lemma pad_source_range (m : PadMode) (n p i j : nat) :
  pad_allowed m 1 n n p p p p = true -> 0 < n -> i < p + n + p ->
  pad_source m n p i = Some j -> j < n.
Proof.
  intros Ha Hn Hi Hj. destruct m.
  - simpl in Hj.
    destruct (Nat.leb_spec p i); destruct (Nat.ltb_spec i (p + n));
      simpl in Hj; try discriminate.
    injection Hj as <-. lia.
  - destruct (@pad_source_in_image Reflect n p i) as (j' & E & Hlt);
      try assumption; try discriminate.
    rewrite E in Hj. now injection Hj as <-.
  - destruct (@pad_source_in_image Replicate n p i) as (j' & E & Hlt);
      try assumption; try discriminate.
    rewrite E in Hj. now injection Hj as <-.
  - destruct (@pad_source_in_image Circular n p i) as (j' & E & Hlt);
      try assumption; try discriminate.
    rewrite E in Hj. now injection Hj as <-.
Qed.

Section TwoImages.

Variable fsum : Reduction.
Variable m : PadMode.
Variables input1 input2 : Tensor.
Variables B C H W : nat.
Variable ks : KernelSize.
Variable b : nat.

Hypothesis ks_ok : kernel_ok ks = true.
Hypothesis border_fits : border_ok m ks C H W = true.
Hypothesis H_pos : 0 < H.
Hypothesis W_pos : 0 < W.
Hypothesis same_image :
  forall c h w, c < C -> h < H -> w < W ->
    get input1 [b; c; h; w] = get input2 [b; c; h; w].

Lemma neighborhood_same (c h w k : nat) :
  c < C -> h < H -> w < W -> k < ky_of ks * kx_of ks ->
  neighborhood m input1 H W ks b c h w k =
  neighborhood m input2 H W ks b c h w k.
Proof.
  intros Hc Hh Hw Hk.
  destruct (kernel_ok_sizes ks ks_ok) as [Ekx Eky].
  destruct (@border_ok_axes m ks C H W border_fits H_pos W_pos) as [Ay Ax].
  assert (Hrow : k / kx_of ks < ky_of ks)
    by (apply Nat.Div0.div_lt_upper_bound; lia).
  assert (Hcol : k mod kx_of ks < kx_of ks)
    by (apply Nat.mod_upper_bound; lia).
  unfold neighborhood, padded_image, padded_value.
  destruct (pad_source m H (pad_y_of ks) (h + k / kx_of ks)) as [h'|] eqn:Eh;
    [|reflexivity].
  destruct (pad_source m W (pad_x_of ks) (w + k mod kx_of ks)) as [w'|] eqn:Ew;
    [|reflexivity].
  apply same_image; [assumption| |].
  - apply (pad_source_range _ _ Ay H_pos) in Eh; [assumption | lia].
  - apply (pad_source_range _ _ Ax W_pos) in Ew; [assumption | lia].
Qed.

Lemma distance_same (cdt : string) (h w k : nat) :
  h < H -> w < W -> k < ky_of ks * kx_of ks ->
  distance fsum m input1 B C H W ks cdt b h w k =
  distance fsum m input2 B C H W ks cdt b h w k.
Proof.
  intros Hh Hw Hk.
  assert (Hd : forall c, In c (seq 0 C) ->
                 channel_diff m input1 H W ks b c h w k =
                 channel_diff m input2 H W ks b c h w k).
  { intros c Hin. apply in_seq in Hin. unfold channel_diff.
    rewrite neighborhood_same by (assumption || lia).
    now rewrite same_image by (assumption || lia). }
  unfold distance, distance_l1, distance_l2.
  destruct ((cdt =? "l1")%string).
  - f_equal. f_equal. apply map_ext_in. intros c Hin. now rewrite Hd.
  - f_equal. apply map_ext_in. intros c Hin. now rewrite Hd.
Qed.

Lemma output_pixel_same (fexp : float -> float) (sk : Tensor)
  (sigma : SigmaColor) (cdt : string) (c h w : nat) :
  c < C -> h < H -> w < W ->
  output_pixel fexp fsum m input1 B C H W ks sk sigma cdt b c h w =
  output_pixel fexp fsum m input2 B C H W ks sk sigma cdt b c h w.
Proof.
  intros Hc Hh Hw. unfold output_pixel, combined_weight, color_weight.
  f_equal; f_equal; apply map_ext_in; intros k Hk; apply in_seq in Hk.
  - rewrite neighborhood_same by (assumption || lia).
    now rewrite distance_same by (assumption || lia).
  - now rewrite distance_same by (assumption || lia).
Qed.

End TwoImages.

(** X11.  The images of a batch are filtered independently: two valid
    calls that differ only in the input, on inputs that agree on image b,
    give outputs that agree on image b. *)
Theorem X11_batch_elements_independent (fexp : float -> float)
  (fsum : Reduction) (builder : KernelSize -> SigmaSpace -> result Tensor)
  (input1 input2 : Tensor) (B C H W : nat) (ks : KernelSize)
  (sigma : SigmaColor) (ss : SigmaSpace) (border : string) (m : PadMode)
  (cdt : string) (sk : Tensor) (b : nat) :
  valid_call builder input1 B C H W ks sigma ss border m cdt sk ->
  valid_call builder input2 B C H W ks sigma ss border m cdt sk ->
  b < B ->
  (forall c h w, c < C -> h < H -> w < W ->
     get input1 [b; c; h; w] = get input2 [b; c; h; w]) ->
  exists out1 out2,
    outcome (bilateral_blur fexp fsum builder input1 ks sigma ss border cdt) =
    Ok out1 /\
    outcome (bilateral_blur fexp fsum builder input2 ks sigma ss border cdt) =
    Ok out2 /\
    forall c h w, c < C -> h < H -> w < W ->
      get out1 [b; c; h; w] = get out2 [b; c; h; w].
Proof.
  intros V1 V2 Hb Hsame.
  destruct (valid_call_runs fexp fsum V1) as (out1 & E1 & R1).
  destruct (valid_call_runs fexp fsum V2) as (out2 & E2 & R2).
  destruct V1 as [Vs Vwf VH VW Vk Vm Vb Vsig Vd Vsp Vss Vsw].
  exists out1, out2. rewrite E1, E2. split; [reflexivity|].
  split; [reflexivity|].
  intros c h w Hc Hh Hw.
  rewrite (Repr_get [b; c; h; w] R1), (Repr_get [b; c; h; w] R2) by range.
  now apply output_pixel_same.
Qed.

(** ** An empty batch *)

(** X12.  A valid call on an empty batch returns the empty tensor of shape
    (0,C,H,W). *)
Theorem X12_empty_batch (fexp : float -> float)
  (fsum : Reduction) (builder : KernelSize -> SigmaSpace -> result Tensor)
  (input : Tensor) (C H W : nat) (ks : KernelSize) (sigma : SigmaColor)
  (ss : SigmaSpace) (border : string) (m : PadMode) (cdt : string)
  (sk : Tensor) :
  valid_call builder input 0 C H W ks sigma ss border m cdt sk ->
  outcome (bilateral_blur fexp fsum builder input ks sigma ss border cdt) =
  Ok (mkTensor [0; C; H; W] []) /\
  input = mkTensor [0; C; H; W] [].
Proof.
  intros V. destruct (valid_call_runs fexp fsum V) as (out & E & Hs & Hw & _).
  destruct V as [Vs Vwf VH VW Vk Vm Vb Vsig Vd Vsp Vss Vsw].
  rewrite E. unfold wf in *. rewrite Hs in Hw. rewrite Vs in Vwf.
  cbn [numel fold_right Nat.mul] in Hw, Vwf.
  destruct out as [so dout], input as [si di]. simpl in *. subst so si.
  apply length_zero_iff_nil in Hw. apply length_zero_iff_nil in Vwf.
  now subst.
Qed.

Lemma ex_batch22_valid :
  valid_call gaussian_kernel2d ex_batch22 2 1 2 2 (KsInt 3)
    (SigmaFloat F64.one) ex_sigma_space "reflect" Reflect "l2" ex_kernel.
Proof.
  constructor; try exact ex_kernel_built; try reflexivity; try lia.
  right; reflexivity.
Defined.

Lemma ex_batch22_other_valid :
  valid_call gaussian_kernel2d ex_batch22_other 2 1 2 2 (KsInt 3)
    (SigmaFloat F64.one) ex_sigma_space "reflect" Reflect "l2" ex_kernel.
Proof.
  constructor; try exact ex_kernel_built; try reflexivity; try lia.
  right; reflexivity.
Defined.

Lemma X11_batch_elements_independent_witness :
  exists out1 out2,
    outcome (bilateral_blur_f64 ex_batch22 (KsInt 3) (SigmaFloat F64.one)
               ex_sigma_space "reflect" "l2") = Ok out1 /\
    outcome (bilateral_blur_f64 ex_batch22_other (KsInt 3)
               (SigmaFloat F64.one) ex_sigma_space "reflect" "l2") =
    Ok out2 /\
    forall c h w, c < 1 -> h < 2 -> w < 2 ->
      get out1 [0; c; h; w] = get out2 [0; c; h; w].
Proof.
  apply (@X11_batch_elements_independent Libm.exp sum_in_lanes gaussian_kernel2d
           ex_batch22 ex_batch22_other 2 1 2 2 (KsInt 3) (SigmaFloat F64.one)
           ex_sigma_space "reflect" Reflect "l2" ex_kernel 0
           ex_batch22_valid ex_batch22_other_valid); [lia|].
  intros c h w Hc Hh Hw.
  destruct c as [|c]; [|lia].
  destruct h as [|[|h]]; [| |lia]; (destruct w as [|[|w]]; [| |lia]);
    reflexivity.
Defined.

Lemma ex_empty_batch_valid :
  valid_call gaussian_kernel2d ex_empty_batch 0 1 2 2 (KsInt 3)
    (SigmaFloat F64.one) ex_sigma_space "reflect" Reflect "l1" ex_kernel.
Proof.
  constructor; try exact ex_kernel_built; try reflexivity; try lia.
  left; reflexivity.
Defined.

Lemma X12_empty_batch_witness :
  outcome (bilateral_blur_f64 ex_empty_batch (KsInt 3) (SigmaFloat F64.one)
             ex_sigma_space "reflect" "l1") =
  Ok (mkTensor [0; 1; 2; 2] []) /\
  ex_empty_batch = mkTensor [0; 1; 2; 2] [].
Proof.
  exact (X12_empty_batch Libm.exp sum_in_lanes ex_empty_batch_valid).
Defined.

(** ** An image of zeros *)

Lemma mul_zero_finite (x w : float) :
  F64.is_zero x = true -> F64.is_finite w = true ->
  F64.is_zero (F64.mul x w) = true.
Proof.
  destruct x as [[|] | [|] | | [|] mx ex]; try discriminate;
    destruct w as [[|] | [|] | | [|] mw ew]; try discriminate; reflexivity.
Qed.

Lemma div_zero_by_number (x d : float) :
  F64.is_zero x = true -> F64.is_zero d = false -> F64.is_nan d = false ->
  F64.is_zero (F64.div x d) = true.
Proof.
  destruct x as [[|] | [|] | | [|] mx ex]; try discriminate;
    destruct d as [[|] | [|] | | [|] md ed]; try discriminate; reflexivity.
Qed.

Lemma neighborhood_of_zeros (m : PadMode) (input : Tensor) (B C H W : nat)
  (ks : KernelSize) (b c h w k : nat) :
  kernel_ok ks = true -> border_ok m ks C H W = true ->
  (forall b c h w, b < B -> c < C -> h < H -> w < W ->
     F64.is_zero (get input [b; c; h; w]) = true) ->
  b < B -> c < C -> h < H -> w < W -> k < ky_of ks * kx_of ks ->
  F64.is_zero (neighborhood m input H W ks b c h w k) = true.
Proof.
  intros Hk Hbo Hz Hb Hc Hh Hw Hlt.
  destruct (kernel_ok_sizes ks Hk) as [Ekx Eky].
  assert (HH : 0 < H) by lia. assert (HW : 0 < W) by lia.
  destruct (@border_ok_axes m ks C H W Hbo HH HW) as [Ay Ax].
  assert (Hrow : k / kx_of ks < ky_of ks)
    by (apply Nat.Div0.div_lt_upper_bound; lia).
  assert (Hcol : k mod kx_of ks < kx_of ks)
    by (apply Nat.mod_upper_bound; lia).
  unfold neighborhood, padded_image, padded_value.
  destruct (pad_source m H (pad_y_of ks) (h + k / kx_of ks)) as [h'|] eqn:Eh;
    [|reflexivity].
  destruct (pad_source m W (pad_x_of ks) (w + k mod kx_of ks)) as [w'|] eqn:Ew;
    [|reflexivity].
  apply Hz; try assumption.
  - apply (pad_source_range _ _ Ay HH) in Eh; [assumption | lia].
  - apply (pad_source_range _ _ Ax HW) in Ew; [assumption | lia].
Qed.

(** X13.  On an image whose pixels are all zero (of either sign), a valid
    call gives a zero at every pixel whose window weights are all finite
    and whose weight sum is a number other than zero, whatever the order in
    which torch's [sum] adds. *)
Theorem X13_zero_image_gives_zero (fexp : float -> float)
  (fsum : Reduction) (builder : KernelSize -> SigmaSpace -> result Tensor)
  (input : Tensor) (B C H W : nat) (ks : KernelSize) (sigma : SigmaColor)
  (ss : SigmaSpace) (border : string) (m : PadMode) (cdt : string)
  (sk : Tensor) (b h w : nat) :
  sums fsum ->
  valid_call builder input B C H W ks sigma ss border m cdt sk ->
  (forall b c h w, b < B -> c < C -> h < H -> w < W ->
     F64.is_zero (get input [b; c; h; w]) = true) ->
  b < B -> h < H -> w < W ->
  let weight :=
    combined_weight fexp fsum m input B C H W ks sk sigma cdt b h w in
  let total :=
    fsum (weights_shape B H W ks) 4
      (map weight (seq 0 (ky_of ks * kx_of ks))) in
  (forall k, k < ky_of ks * kx_of ks -> F64.is_finite (weight k) = true) ->
  F64.is_zero total = false -> F64.is_nan total = false ->
  exists out,
    outcome (bilateral_blur fexp fsum builder input ks sigma ss border cdt) =
    Ok out /\
    forall c, c < C -> F64.is_zero (get out [b; c; h; w]) = true.
Proof.
  intros Hsum V Hz Hb Hh Hw weight total Hfin Hnz Hnn.
  destruct (valid_call_runs fexp fsum V) as (out & E & R).
  destruct V as [Vs Vwf VH VW Vk Vm Vb Vsig Vd Vsp Vss Vsw].
  exists out. rewrite E. split; [reflexivity|].
  intros c Hc. rewrite (Repr_get [b; c; h; w] R) by range.
  unfold output_pixel. apply div_zero_by_number; try assumption.
  apply (sum_of_zeros (Hsum _ _)).
  intros x Hx. apply in_map_iff in Hx. destruct Hx as (k & <- & Hk).
  apply in_seq in Hk. apply mul_zero_finite.
  - now apply (@neighborhood_of_zeros m input B C H W ks b c h w k);
      try assumption; lia.
  - apply Hfin. lia.
Qed.

Lemma ex_zero_image_valid :
  valid_call gaussian_kernel2d ex_zero_image 1 1 2 2 (KsInt 3)
    (SigmaFloat F64.one) ex_sigma_space "reflect" Reflect "l1" ex_kernel.
Proof.
  constructor; try exact ex_kernel_built; try reflexivity; try lia.
  left; reflexivity.
Defined.

Lemma X13_zero_image_gives_zero_witness :
  exists out,
    outcome (bilateral_blur_f64 ex_zero_image (KsInt 3) (SigmaFloat F64.one)
               ex_sigma_space "reflect" "l1") = Ok out /\
    forall c, c < 1 -> F64.is_zero (get out [0; c; 0; 0]) = true.
Proof.
  apply (@X13_zero_image_gives_zero Libm.exp sum_in_lanes gaussian_kernel2d
           ex_zero_image 1 1 2 2 (KsInt 3) (SigmaFloat F64.one)
           ex_sigma_space "reflect" Reflect "l1" ex_kernel 0 0 0
           sum_in_lanes_sums ex_zero_image_valid).
  - intros b c h w Hb Hc Hh Hw.
    destruct b as [|b]; [|lia]. destruct c as [|c]; [|lia].
    destruct h as [|[|h]]; [| |lia]; (destruct w as [|[|w]]; [| |lia]);
      reflexivity.
  - lia.
  - lia.
  - lia.
  - intros k Hk.
    do 9 (destruct k as [|k]; [vm_compute; reflexivity|]).
    change (ky_of (KsInt 3) * kx_of (KsInt 3)) with 9 in Hk. lia.
  - vm_compute. reflexivity.
  - vm_compute. reflexivity.
Defined.
